(** * Christmas-tree: the morph driver, the shape samplers and the two fields

    A shallow embedding of [src/App.tsx] (SceneContent), of
    [src/components/Foliage.tsx] and of [src/components/Ornaments.tsx].

    Numbers.  A JavaScript [number] that carries a coordinate, a time or a
    progress value is idealised as a real number: IEEE-754 rounding and the
    single-precision storage of [Float32Array] are not modelled.  The element
    count of a field, which decides allocation and loop bounds, is a
    [jsnum]: an integer, any other finite number (as a rational), [NaN] or
    one of the two infinities.

    Randomness.  [Math.random()] is a read from a stream of draws that is
    threaded through the code in source order. *)

From Stdlib Require Import Reals Lra Lia ZArith QArith List Bool Machin.
From stdpp Require Import base list.
Import ListNotations.

Open Scope R_scope.

(** ** Vectors *)

Record vec3 : Type := Vec3 { vx : R; vy : R; vz : R }.

Definition norm2 (v : vec3) : R := vx v * vx v + vy v * vy v + vz v * vz v.
Definition norm (v : vec3) : R := sqrt (norm2 v).

Definition vadd (p q : vec3) : vec3 :=
  Vec3 (vx p + vx q) (vy p + vy q) (vz p + vz q).

Definition vscale (p : vec3) (k : R) : vec3 :=
  Vec3 (vx p * k) (vy p * k) (vz p * k).

(** ** The library functions the source calls *)

(** [THREE.MathUtils] belongs to the three.js library; its two functions
    that the sources call are not among them. *)
Module MathUtils.

(** Modelled from the spec: [THREE.MathUtils.lerp], the linear
    interpolation from [x] to [y]; in three.js,
    [lerp(x, y, t) = (1 - t) * x + t * y]. *)
Definition lerp (x y t : R) : R := (1 - t) * x + t * y.

(** Modelled from the spec: [THREE.MathUtils.damp], the exponential
    damping of (current, target, constant, deltaTime) that drives the
    progress; in three.js,
    [damp(x, y, lambda, dt) = lerp(x, y, 1 - Math.exp(-lambda * dt))]. *)
Definition damp (x y lambda dt : R) : R :=
  lerp x y (1 - exp (- lambda * dt)).

End MathUtils.

(** GLSL built-ins used by the foliage vertex shader. *)
Module GLSL.

Definition clamp (x lo hi : R) : R := Rmin (Rmax x lo) hi.

Definition smoothstep (edge0 edge1 x : R) : R :=
  let t := clamp ((x - edge0) / (edge1 - edge0)) 0 1 in
  t * t * (3 - 2 * t).

Definition mix (x y a : R) : R := x * (1 - a) + y * a.

Definition mix3 (p q : vec3) (a : R) : vec3 :=
  Vec3 (mix (vx p) (vx q) a) (mix (vy p) (vy q) a) (mix (vz p) (vz q) a).

End GLSL.

(** [Math.pow(x, y)] for a base [x >= 0] and an exponent [y > 0]:
    [Math.pow(0, y)] is [0]. *)
Definition Math_pow (x y : R) : R :=
  if Rlt_dec 0 x then Rpower x y else 0.

(** ** SceneContent: the morph driver (App.tsx, lines 107-115) *)

Inductive TreeMode : Type := SCATTERED | TREE_SHAPE.

Definition mode_target (mode : TreeMode) : R :=
  match mode with TREE_SHAPE => 1 | SCATTERED => 0 end.

(** One [useFrame] callback of SceneContent: the new [morphProgress.current]. *)
Definition morph_tick (progress : R) (mode : TreeMode) (delta : R) : R :=
  MathUtils.damp progress (mode_target mode) 2.5 delta.

(** A run of frames, each with the mode of that frame and its delta. *)
Fixpoint morph_run (progress : R) (frames : list (TreeMode * R)) : R :=
  match frames with
  | [] => progress
  | (mode, delta) :: rest => morph_run (morph_tick progress mode delta) rest
  end.

(** The progress values seen after each frame of a run. *)
Fixpoint morph_trace (progress : R) (frames : list (TreeMode * R)) : list R :=
  match frames with
  | [] => []
  | (mode, delta) :: rest =>
      let p := morph_tick progress mode delta in p :: morph_trace p rest
  end.

(** [n] frames in TREE_SHAPE mode with one fixed delta. *)
Fixpoint morph_ticks (n : nat) (progress delta : R) : R :=
  match n with
  | O => progress
  | S k => morph_ticks k (morph_tick progress TREE_SHAPE delta) delta
  end.

(** ** Element counts, typed arrays and errors *)

(** The [count] prop, a JavaScript number: an integer [Fin z], any other
    finite value [Frac q] (a finite double is a rational; products of
    counts are taken exactly), [NaN], [Infinity] or [-Infinity].  A [Frac]
    that happens to hold an integer behaves as the [Fin] of that integer. *)
Inductive jsnum : Type :=
| Fin (z : Z)
| Frac (q : Q)
| NaN
| PosInf
| NegInf.

(** ToIntegerOrInfinity of a finite number: truncation towards zero. *)
Definition ToInteger (q : Q) : Z := Z.quot (Qnum q) (Z.pos (Qden q)).

(** [count * k] for a positive integer constant [k]. *)
Definition js_times (c : jsnum) (k : Z) : jsnum :=
  match c with
  | Fin z => Fin (z * k)
  | Frac q => Frac (q * inject_Z k)%Q
  | NaN => NaN
  | PosInf => PosInf
  | NegInf => NegInf
  end.

(** The loop test [i < count] for a loop index [i = 0, 1, 2, ...]. *)
Definition js_lt (i : nat) (c : jsnum) : bool :=
  match c with
  | Fin z => (Z.of_nat i <? z)%Z
  | Frac q => negb (Qle_bool q (inject_Z (Z.of_nat i)))
  | NaN => false
  | PosInf => true
  | NegInf => false
  end.

Inductive js_error : Type := RangeError.

Inductive completion (A : Type) : Type :=
| Normal (a : A)
| Throw (e : js_error).
Arguments Normal {A} a.
Arguments Throw {A} e.

(** [new Float32Array(len)]: the length goes through ToIndex, so [NaN]
    gives length 0, a fractional length is truncated towards zero (a
    length strictly between -1 and 0 gives 0), and a length that is still
    negative after that, or infinite, raises a RangeError; the array
    starts filled with zeros. *)
Definition Float32Array_new (len : jsnum) : completion (list R) :=
  match len with
  | Fin z => if (z <? 0)%Z then Throw RangeError
             else Normal (replicate (Z.to_nat z) 0)
  | Frac q => if (ToInteger q <? 0)%Z then Throw RangeError
              else Normal (replicate (Z.to_nat (ToInteger q)) 0)
  | NaN => Normal []
  | PosInf => Throw RangeError
  | NegInf => Throw RangeError
  end.

(** ** Math.random as a stream of draws *)

Definition rng : Type := nat -> R.

Definition Rand (A : Type) : Type := rng -> A * rng.

Definition ret {A : Type} (a : A) : Rand A := fun s => (a, s).

Definition bind {A B : Type} (c : Rand A) (k : A -> Rand B) : Rand B :=
  fun s => let (a, s') := c s in k a s'.

Notation "x <- c ;; k" := (bind c (fun x => k))
  (at level 100, c at next level, right associativity).

Definition Math_random : Rand R :=
  fun s => (s 0%nat, fun n => s (S n)).

(** Every draw of [Math.random()] lies in [0, 1). *)
Definition rng_ok (s : rng) : Prop := forall n, 0 <= s n < 1.

(** ** The sphere-cloud scatter position (both fields) *)

(** The three coordinates that Foliage.tsx (lines 123-125) and
    Ornaments.tsx (lines 43-45) compute from [sr], [sTheta] and [sPhi]. *)
Definition scatterShell (sr sTheta sPhi : R) : vec3 :=
  Vec3 (sr * sin sPhi * cos sTheta)
       (sr * sin sPhi * sin sTheta)
       (sr * cos sPhi).

(** ** Foliage.tsx *)

Module Foliage.

Definition height : R := 14.
Definition radiusBase : R := 5.

Record buffers : Type := Buffers {
  positions : list R;
  scatterPositions : list R;
  randoms : list R
}.

(** One pass of the generating loop (lines 100-128) at index [i]. *)
Definition body (i : nat) (b : buffers) : Rand buffers :=
  u1 <- Math_random ;;
  let yNorm := Math_pow u1 0.8 in
  let y := yNorm * height - height / 2 in
  let r := (1 - yNorm) * radiusBase in
  u2 <- Math_random ;;
  let theta := u2 * PI * 2 in
  u3 <- Math_random ;;
  let rad := sqrt u3 * r in
  let x := rad * cos theta in
  let z := rad * sin theta in
  let pos := <[(i * 3 + 2)%nat := z]>
               (<[(i * 3 + 1)%nat := y]>
                  (<[(i * 3)%nat := x]> (positions b))) in
  u4 <- Math_random ;;
  let sr := 15 + u4 * 10 in
  u5 <- Math_random ;;
  let sTheta := u5 * PI * 2 in
  u6 <- Math_random ;;
  let sPhi := acos (2 * u6 - 1) in
  let sc := scatterShell sr sTheta sPhi in
  let scat := <[(i * 3 + 2)%nat := vz sc]>
                (<[(i * 3 + 1)%nat := vy sc]>
                   (<[(i * 3)%nat := vx sc]> (scatterPositions b))) in
  u7 <- Math_random ;;
  let rnd := <[i := u7]> (randoms b) in
  ret (Buffers pos scat rnd).

(** [for (let i = 0; i < count; i++)], with fuel for the number of tests. *)
Fixpoint loop (fuel : nat) (count : jsnum) (i : nat) (b : buffers)
  : Rand (option buffers) :=
  match fuel with
  | O => ret None
  | S fuel' =>
      if js_lt i count
      then b' <- body i b ;; loop fuel' count (S i) b'
      else ret (Some b)
  end.

(** The [useMemo] callback (lines 92-131): three allocations, then the
    loop.  [None] means the fuel ran out. *)
Definition useMemo (fuel : nat) (count : jsnum)
  : Rand (option (completion buffers)) :=
  match Float32Array_new (js_times count 3) with
  | Throw e => ret (Some (Throw e))
  | Normal pos =>
      match Float32Array_new (js_times count 3) with
      | Throw e => ret (Some (Throw e))
      | Normal scat =>
          match Float32Array_new count with
          | Throw e => ret (Some (Throw e))
          | Normal rnd =>
              r <- loop fuel count 0 (Buffers pos scat rnd) ;;
              ret (option_map Normal r)
          end
      end
  end.

(** The attributes of one vertex.  The geometry supplies [aScatterPos],
    [aTreePos] and [aRandom]; [normal] is whatever the host binds. *)
Record vertex : Type := Vertex {
  aScatterPos : vec3;
  aTreePos : vec3;
  aRandom : R;
  normal : vec3
}.

Definition fetch3 (a : list R) (i : nat) : vec3 :=
  Vec3 (nth (i * 3) a 0) (nth (i * 3 + 1) a 0) (nth (i * 3 + 2) a 0).

(** Vertex [i] as the buffer attributes of lines 143-166 present it. *)
Definition vertex_at (normals : nat -> vec3) (b : buffers) (i : nat)
  : vertex :=
  Vertex (fetch3 (scatterPositions b) i) (fetch3 (positions b) i)
         (nth i (randoms b) 0) (normals i).

(** [count={positions.length / 3}] vertices are drawn (the whole vertices,
    when the length is not a multiple of 3). *)
Definition vertex_count (b : buffers) : nat := (length (positions b) / 3)%nat.

Definition vertices (normals : nat -> vec3) (b : buffers) : list vertex :=
  map (vertex_at normals b) (seq 0 (vertex_count b)).

(** The cubic ease-out of the shader; declared there, never called. *)
Definition easeOut (t : R) : R := 1 - (1 - t) ^ 3.

Definition breath (uTime : R) (v : vertex) : R :=
  sin (uTime * 2 + aRandom v * 10) * 0.05.

(** [main] of the vertex shader up to the local position [pos]
    (lines 37-53); the camera matrices are the host's. *)
Definition vertexShader (uTime uMorph : R) (v : vertex) : vec3 :=
  let localProgress := GLSL.smoothstep 0 1 uMorph in
  let pos := GLSL.mix3 (aScatterPos v) (aTreePos v) localProgress in
  let pos :=
    if Rlt_dec 0.8 uMorph
    then vadd pos (vscale (normal v) (breath uTime v))
    else pos in
  let pos :=
    if Rlt_dec uMorph 0.2
    then Vec3 (vx pos + cos (uTime * 0.3 + aRandom v * 10) * 0.2)
              (vy pos + sin (uTime * 0.5 + aRandom v * 10) * 0.2)
              (vz pos)
    else pos in
  pos.

Record uniforms : Type := Uniforms { uTime : R; uMorph : R }.

(** The [useFrame] callback (lines 133-138). *)
Definition useFrame (shaderRef : option uniforms) (elapsedTime progress : R)
  : option uniforms :=
  match shaderRef with
  | Some _ => Some (Uniforms elapsedTime progress)
  | None => None
  end.

(** What one frame draws: the shader run over every vertex. *)
Definition render (u : uniforms) (normals : nat -> vec3) (b : buffers)
  : list vec3 :=
  map (vertexShader (uTime u) (uMorph u)) (vertices normals b).

End Foliage.

(** ** Ornaments.tsx *)

Module Ornaments.

Definition height : R := 13.
Definition radiusBase : R := 4.8.

Record PositionData : Type := Build_PositionData {
  tree : vec3;
  scatter : vec3;
  rotation : vec3;
  scale : R
}.

(** The angle of line 32. *)
Definition spiral_theta (y : R) (i : nat) : R :=
  y * 2.0 + (INR i * 1.618 * PI * 2).

(** One pass of the generating loop (lines 25-53) at index [i]. *)
Definition body (i : nat) : Rand PositionData :=
  u1 <- Math_random ;;
  let yNorm := u1 in
  let y := yNorm * height - height / 2 in
  let r := (1 - yNorm) * radiusBase in
  let theta := spiral_theta y i in
  let x := r * cos theta in
  let z := r * sin theta in
  u2 <- Math_random ;;
  let sr := 12 + u2 * 12 in
  u3 <- Math_random ;;
  let sTheta := u3 * PI * 2 in
  u4 <- Math_random ;;
  let sPhi := acos (2 * u4 - 1) in
  let sc := scatterShell sr sTheta sPhi in
  u5 <- Math_random ;;
  u6 <- Math_random ;;
  u7 <- Math_random ;;
  ret (Build_PositionData (Vec3 x y z) sc
         (Vec3 (u5 * PI) (u6 * PI) 0) (0.5 + u7 * 0.5)).

Fixpoint loop (fuel : nat) (count : jsnum) (i : nat)
  (items : list PositionData) : Rand (option (list PositionData)) :=
  match fuel with
  | O => ret None
  | S fuel' =>
      if js_lt i count
      then item <- body i ;; loop fuel' count (S i) (items ++ [item])
      else ret (Some items)
  end.

(** The [useMemo] callback (lines 20-55). *)
Definition useMemo (fuel : nat) (count : jsnum)
  : Rand (option (list PositionData)) :=
  loop fuel count 0 [].

(** What [dummy.updateMatrix()] composes a matrix from. *)
Record transform : Type := Transform {
  t_position : vec3;
  t_rotation : vec3;
  t_scale : vec3
}.

Definition identity : transform :=
  Transform (Vec3 0 0 0) (Vec3 0 0 0) (Vec3 1 1 1).

Record InstancedMesh : Type := Mesh {
  instanceMatrix : list transform;
  needsUpdate : bool
}.

(** [new THREE.InstancedMesh(geometry, undefined, count)] (line 107):
    the matrices live in a [Float32Array(count * 16)], one identity per
    instance.  The store is kept per whole instance: the floats that a
    fractional count leaves after the last whole matrix are not kept. *)
Definition InstancedMesh_new (count : jsnum) : completion InstancedMesh :=
  match Float32Array_new (js_times count 16) with
  | Throw e => Throw e
  | Normal a => Normal (Mesh (replicate (length a / 16) identity) false)
  end.

(** Data first (during render), then the mesh (on mount). *)
Definition construct (fuel : nat) (count : jsnum)
  : Rand (option (completion (list PositionData * InstancedMesh))) :=
  r <- useMemo fuel count ;;
  ret (match r with
       | None => None
       | Some data =>
           match InstancedMesh_new count with
           | Throw e => Some (Throw e)
           | Normal mesh => Some (Normal (data, mesh))
           end
       end).

Definition easedT (t : R) : R := 1 - (1 - t) ^ 3.

(** The body of [data.forEach] (lines 67-91): the transform of instance
    [i]. *)
Definition instance_transform (t time scaleBase : R) (item : PositionData)
  (i : nat) : transform :=
  let cx := MathUtils.lerp (vx (scatter item)) (vx (tree item)) (easedT t) in
  let cy := MathUtils.lerp (vy (scatter item)) (vy (tree item)) (easedT t) in
  let cz := MathUtils.lerp (vz (scatter item)) (vz (tree item)) (easedT t) in
  let floatAmp := (1 - t) * 0.5 in
  let fx := cx + sin (time + INR i) * floatAmp in
  let fy := cy + cos (time * 0.8 + INR i) * floatAmp in
  let fz := cz in
  let s := scale item * scaleBase * (0.8 + 0.2 * sin (time + INR i)) in
  Transform (Vec3 fx fy fz)
            (Vec3 (vx (rotation item) + time * (1 - t) * 0.5)
                  (vy (rotation item) + time * (0.2 + (1 - t)))
                  (vz (rotation item)))
            (Vec3 s s s).

(** [data.forEach((item, i) => ... setMatrixAt(i, dummy.matrix))]. *)
Fixpoint forEach (t time scaleBase : R) (data : list PositionData)
  (i : nat) (matrices : list transform) : list transform :=
  match data with
  | [] => matrices
  | item :: rest =>
      forEach t time scaleBase rest (S i)
        (<[i := instance_transform t time scaleBase item i]> matrices)
  end.

(** The [useFrame] callback (lines 57-96). *)
Definition useFrame (meshRef : option InstancedMesh)
  (t time scaleBase : R) (data : list PositionData)
  : option InstancedMesh :=
  match meshRef with
  | None => None
  | Some mesh =>
      Some (Mesh (forEach t time scaleBase data 0 (instanceMatrix mesh))
                 true)
  end.

End Ornaments.

(** ** Predicates the statements use *)

(** [b] is where one tick may take [a] when chasing [target]: strictly
    between [a] and [target] on the side [a] is on, or at rest on
    [target]. *)
Definition toward (target a b : R) : Prop :=
  (a < target /\ a < b < target) \/
  (target < a /\ target < b < a) \/
  (a = target /\ b = target).

(** Every element of [trace] is [toward] the target from the one before. *)
Fixpoint approaches (target prev : R) (trace : list R) : Prop :=
  match trace with
  | [] => True
  | p :: rest => toward target prev p /\ approaches target p rest
  end.

(** [q] lies between the start [p] and [target], ends included. *)
Definition between (p target q : R) : Prop :=
  (p <= q <= target) \/ (target <= q <= p).

(** The number of elements a field of [count] elements holds. *)
Definition count_len (count : jsnum) : nat :=
  match count with
  | Fin z => Z.to_nat z
  | Frac q => Z.to_nat (ToInteger q)
  | _ => 0%nat
  end.

(** A count whose loop makes as many passes as the field holds elements:
    an integer, [NaN] or [-Infinity]. *)
Definition whole_count (count : jsnum) : Prop :=
  match count with
  | Frac _ => False
  | PosInf => False
  | _ => True
  end.

(** The horizontal distance of a point from the trunk axis. *)
Definition radial (v : vec3) : R := sqrt (vx v * vx v + vz v * vz v).

(** Largest absolute difference of two points, coordinate by coordinate. *)
Definition dist_inf (p q : vec3) : R :=
  Rmax (Rabs (vx p - vx q))
       (Rmax (Rabs (vy p - vy q)) (Rabs (vz p - vz q))).

Definition unit_draw (u : R) : Prop := 0 <= u < 1.

(** [v] carries what one pass of the Foliage loop writes, for some seven
    draws of [Math.random()]. *)
Definition foliage_sampled (v : Foliage.vertex) : Prop :=
  exists u1 u2 u3 u4 u5 u6 u7 : R,
    (unit_draw u1 /\ unit_draw u2 /\ unit_draw u3 /\ unit_draw u4 /\
     unit_draw u5 /\ unit_draw u6 /\ unit_draw u7) /\
    Foliage.aTreePos v =
      Vec3 (sqrt u3 * ((1 - Math_pow u1 0.8) * Foliage.radiusBase)
              * cos (u2 * PI * 2))
           (Math_pow u1 0.8 * Foliage.height - Foliage.height / 2)
           (sqrt u3 * ((1 - Math_pow u1 0.8) * Foliage.radiusBase)
              * sin (u2 * PI * 2)) /\
    Foliage.aScatterPos v =
      scatterShell (15 + u4 * 10) (u5 * PI * 2) (acos (2 * u6 - 1)) /\
    Foliage.aRandom v = u7.

(** [item] is what the Ornaments loop pushes at index [i], for some seven
    draws of [Math.random()]. *)
Definition ornament_sampled (i : nat) (item : Ornaments.PositionData) : Prop :=
  exists u1 u2 u3 u4 u5 u6 u7 : R,
    (unit_draw u1 /\ unit_draw u2 /\ unit_draw u3 /\ unit_draw u4 /\
     unit_draw u5 /\ unit_draw u6 /\ unit_draw u7) /\
    item =
      Ornaments.Build_PositionData
        (Vec3 ((1 - u1) * Ornaments.radiusBase
                 * cos (Ornaments.spiral_theta
                          (u1 * Ornaments.height - Ornaments.height / 2) i))
              (u1 * Ornaments.height - Ornaments.height / 2)
              ((1 - u1) * Ornaments.radiusBase
                 * sin (Ornaments.spiral_theta
                          (u1 * Ornaments.height - Ornaments.height / 2) i)))
        (scatterShell (12 + u2 * 12) (u3 * PI * 2) (acos (2 * u4 - 1)))
        (Vec3 (u5 * PI) (u6 * PI) 0)
        (0.5 + u7 * 0.5).

(** The three stores [a[i * 3] = x; a[i * 3 + 1] = y; a[i * 3 + 2] = z]. *)
Definition write3 (i : nat) (p : vec3) (a : list R) : list R :=
  <[(i * 3 + 2)%nat := vz p]>
    (<[(i * 3 + 1)%nat := vy p]> (<[(i * 3)%nat := vx p]> a)).

(** Buffers sized for [n] elements whose slots below [i] are written. *)
Definition filled (normals : nat -> vec3) (n i : nat) (b : Foliage.buffers)
  : Prop :=
  length (Foliage.positions b) = (n * 3)%nat /\
  length (Foliage.scatterPositions b) = (n * 3)%nat /\
  length (Foliage.randoms b) = n /\
  forall j, (j < i)%nat -> (j < n)%nat ->
            foliage_sampled (Foliage.vertex_at normals b j).

(** The items pushed so far: item [j] was sampled at index [j]. *)
Definition all_sampled (items : list Ornaments.PositionData) : Prop :=
  forall j item, items !! j = Some item -> ornament_sampled j item.

(** A list paired with the indices of its elements, counted from [i]. *)
Fixpoint indexed_from {A : Type} (i : nat) (l : list A) : list (nat * A) :=
  match l with
  | [] => []
  | x :: rest => (i, x) :: indexed_from (S i) rest
  end.

(** A construction that ends by raising an error. *)
Definition raises {A : Type} (r : option (completion A)) : Prop :=
  exists e, r = Some (Throw e).

(** Following the spec's words: the golden angle, [PI * (3 - sqrt 5)],
    about 2.39996 rad. *)
Definition golden_angle : R := PI * (3 - sqrt 5).

(** The step of line 32 per index, [1.618 * (2 * PI)], counted backwards
    from two full turns: [1.618 * (2 * PI) = 2 * (2 * PI) - winding_step]. *)
Definition winding_step : R := (2 - 1.618) * (2 * PI).

(** The normalised height [yNorm] of a tree point, read back from its
    height coordinate [y = yNorm * height - height / 2]. *)
Definition yNorm_of (height y : R) : R := (y + height / 2) / height.

(** ** App.tsx: the star, the mode toggle *)

Module TopStar.

(** One corner of the outline (lines 24-26): the radius alternates with
    the parity of [i], the angle is [i * angleStep]. *)
Definition shape_point (outerRadius innerRadius angleStep : R) (i : nat)
  : R * R :=
  let r := if (i mod 2 =? 0)%nat then outerRadius else innerRadius in
  let a := INR i * angleStep in
  (sin a * r, cos a * r).

(** The path of lines 16-28: [moveTo(0, outerRadius)], then a [lineTo] for
    [i = 1, ..., 2 * points - 1]. *)
Definition starShape (points : nat) (outerRadius innerRadius : R)
  : list (R * R) :=
  let angleStep := PI / INR points in
  (0, outerRadius)
    :: map (shape_point outerRadius innerRadius angleStep)
         (seq 1 (2 * points - 1)).

(** The constants of lines 17-19. *)
Definition starGeometry_shape : list (R * R) := starShape 5 1.4 0.6.

Record group : Type := Group {
  g_position : vec3;
  g_rotation : vec3;
  g_scale : vec3
}.

(** The [useFrame] callback of the star (lines 43-71).  The rotation about
    X is never assigned and keeps its value. *)
Definition useFrame (groupRef : option group) (morphProgress time : R)
  : option group :=
  match groupRef with
  | None => None
  | Some g =>
      let t := morphProgress in
      let scatterY := 20 + sin time * 2 in
      let treeY := 7.6 in
      let currentY := MathUtils.lerp scatterY treeY t in
      let scatterOffset := 5 in
      let currentX :=
        MathUtils.lerp (sin (time * 0.5) * scatterOffset) 0 t in
      let currentZ :=
        MathUtils.lerp (cos (time * 0.5) * scatterOffset) 0 t in
      let scaleBase := MathUtils.lerp 0.5 1.0 t in
      let pulse := 1 + sin (time * 2.5) * 0.05 in
      Some (Group (Vec3 currentX currentY currentZ)
                  (Vec3 (vx (g_rotation g)) (time * 0.4)
                        (sin (time * 0.5) * 0.05))
                  (Vec3 (scaleBase * pulse) (scaleBase * pulse)
                        (scaleBase * pulse)))
  end.

End TopStar.

Module App.

(** The two [useState] cells of the App component (lines 174-175). *)
Record state : Type := State {
  mode : TreeMode;
  audioStarted : bool
}.

Definition initial : state := State SCATTERED false.

(** [toggleMode] (lines 177-180). *)
Definition toggleMode (st : state) : state :=
  State (match mode st with
         | SCATTERED => TREE_SHAPE
         | TREE_SHAPE => SCATTERED
         end)
        (if negb (audioStarted st) then true else audioStarted st).

(** [n] clicks on the button. *)
Fixpoint clicks (n : nat) (st : state) : state :=
  match n with
  | O => st
  | S k => clicks k (toggleMode st)
  end.

End App.

(** ** Foliage.tsx: what the shaders emit besides the position *)

Module FoliageMaterial.

(** [uPixelRatio: Math.min(window.devicePixelRatio, 2)] (line 18). *)
Definition uPixelRatio (devicePixelRatio : R) : R := Rmin devicePixelRatio 2.

(** [gl_PointSize] (line 59); [mvz] is [mvPosition.z]. *)
Definition gl_PointSize (v : Foliage.vertex) (pixelRatio mvz : R) : R :=
  (4.0 * Foliage.aRandom v + 2.0) * pixelRatio * (50.0 / - mvz).

(** [vAlpha] (lines 62-63). *)
Definition vAlpha (uTime : R) (v : Foliage.vertex) : R :=
  let sparkle := sin (uTime * 3.0 + Foliage.aRandom v * 20.0) in
  0.6 + 0.4 * sparkle.

(** [main] of the fragment shader (lines 72-85): [None] is [discard],
    otherwise the colour and the alpha of [gl_FragColor]. *)
Definition fragmentShader (uColorHigh uColorLow : vec3) (alpha : R)
  (gl_PointCoord : R * R) : option (vec3 * R) :=
  let cx := fst gl_PointCoord - 0.5 in
  let cy := snd gl_PointCoord - 0.5 in
  let dist := sqrt (cx * cx + cy * cy) in
  if Rlt_dec 0.5 dist then None
  else
    let glow := 1.0 - dist * 2.0 in
    let glow := Math_pow glow 1.5 in
    let color := GLSL.mix3 uColorLow uColorHigh (glow * 0.5) in
    Some (color, alpha * glow).

End FoliageMaterial.

(** ** More predicates *)

(** The sum of the deltas of a run. *)
Fixpoint total_time (deltas : list R) : R :=
  match deltas with
  | [] => 0
  | d :: rest => d + total_time rest
  end.

(** [n] frames in one mode with one delta. *)
Definition steady (mode : TreeMode) (delta : R) (n : nat)
  : list (TreeMode * R) :=
  replicate n (mode, delta).

(** The draws from the [k]-th on. *)
Definition drop_draws (k : nat) (s : rng) : rng := fun n => s (k + n)%nat.

(** The vertex that one pass of the Foliage loop writes from the draws
    [d 0], ..., [d 6] (lines 103-127). *)
Definition foliage_particle (d : rng) (nrm : vec3) : Foliage.vertex :=
  Foliage.Vertex
    (scatterShell (15 + d 3%nat * 10) (d 4%nat * PI * 2)
       (acos (2 * d 5%nat - 1)))
    (Vec3 (sqrt (d 2%nat)
             * ((1 - Math_pow (d 0%nat) 0.8) * Foliage.radiusBase)
             * cos (d 1%nat * PI * 2))
          (Math_pow (d 0%nat) 0.8 * Foliage.height - Foliage.height / 2)
          (sqrt (d 2%nat)
             * ((1 - Math_pow (d 0%nat) 0.8) * Foliage.radiusBase)
             * sin (d 1%nat * PI * 2)))
    (d 6%nat)
    nrm.

(** The transforms a frame computes for [data], in order. *)
Definition frame_transforms (t time scaleBase : R)
  (data : list Ornaments.PositionData) : list Ornaments.transform :=
  map (fun p => Ornaments.instance_transform t time scaleBase (snd p) (fst p))
      (indexed_from 0 data).

(** The distance of a point of the plane from the origin. *)
Definition norm_xy (p : R * R) : R := sqrt (fst p * fst p + snd p * snd p).

(** ** Facts about the damping step *)

Section DampFacts.

Lemma damp_factor_pos (delta : R) :
  0 < delta -> 0 < 1 - exp (- 2.5 * delta) < 1.
Proof.
  intros Hd.
  assert (H0 : 0 < exp (- 2.5 * delta)) by apply exp_pos.
  assert (H1 : exp (- 2.5 * delta) < exp 0) by (apply exp_increasing; lra).
  rewrite exp_0 in H1. lra.
Qed.

Lemma damp_factor_nonneg (delta : R) :
  0 <= delta -> 0 <= 1 - exp (- 2.5 * delta) < 1.
Proof.
  intros [Hd | <-].
  - pose proof (damp_factor_pos delta Hd). lra.
  - replace (- 2.5 * 0) with 0 by lra. rewrite exp_0. lra.
Qed.

Lemma morph_tick_eq (p : R) (mode : TreeMode) (delta : R) :
  morph_tick p mode delta =
  p + (mode_target mode - p) * (1 - exp (- 2.5 * delta)).
Proof.
  unfold morph_tick, MathUtils.damp, MathUtils.lerp.
  replace (- (2.5) * delta) with (- 2.5 * delta) by lra. ring.
Qed.

End DampFacts.

(** ** The morph driver *)

Section MorphDriver.

Lemma morph_tick_toward (p : R) (mode : TreeMode) (delta : R) :
  0 < delta -> toward (mode_target mode) p (morph_tick p mode delta).
Proof.
  intros Hd. rewrite morph_tick_eq.
  pose proof (damp_factor_pos delta Hd) as Hk.
  set (k := 1 - exp (- 2.5 * delta)) in *.
  set (tg := mode_target mode).
  unfold toward.
  destruct (Rtotal_order p tg) as [Hlt | [Heq | Hgt]].
  - left. split; [assumption | nra].
  - right; right. split; [assumption | nra].
  - right; left. split; [assumption | nra].
Qed.

Lemma toward_between (tg p a b : R) :
  between p tg a -> toward tg a b -> between p tg b.
Proof. unfold between, toward. intros Hb Ht. lra. Qed.

Lemma approaches_between (tg p : R) (trace : list R) :
  forall a, between p tg a -> approaches tg a trace ->
            Forall (between p tg) trace.
Proof.
  induction trace as [| q rest IH]; intros a Ha Happ.
  - constructor.
  - destruct Happ as [Hstep Hrest].
    pose proof (toward_between tg p a q Ha Hstep) as Hq.
    constructor; [assumption | exact (IH q Hq Hrest)].
Qed.

Lemma morph_trace_approaches (mode : TreeMode) (deltas : list R) :
  Forall (fun d => 0 < d) deltas ->
  forall p, approaches (mode_target mode) p
              (morph_trace p (map (fun d => (mode, d)) deltas)).
Proof.
  induction 1 as [| d rest Hd _ IH]; intros p; simpl.
  - exact I.
  - split; [apply morph_tick_toward; assumption | apply IH].
Qed.

Lemma morph_tick_unit (p : R) (mode : TreeMode) (delta : R) :
  0 <= delta -> 0 <= p <= 1 -> 0 <= morph_tick p mode delta <= 1.
Proof.
  intros Hd Hp. rewrite morph_tick_eq.
  pose proof (damp_factor_nonneg delta Hd) as Hk.
  set (k := 1 - exp (- 2.5 * delta)) in *.
  destruct mode; simpl; nra.
Qed.

Lemma morph_trace_unit (frames : list (TreeMode * R)) :
  Forall (fun f => 0 <= snd f) frames ->
  forall p, 0 <= p <= 1 ->
            Forall (fun q => 0 <= q <= 1) (morph_trace p frames) /\
            0 <= morph_run p frames <= 1.
Proof.
  induction 1 as [| [mode d] rest Hd _ IH]; intros p Hp; simpl.
  - split; [constructor | assumption].
  - simpl in Hd.
    pose proof (morph_tick_unit p mode d Hd Hp) as Hq.
    destruct (IH _ Hq) as [Ht Hr].
    split; [constructor; assumption | assumption].
Qed.

End MorphDriver.

(** C2.  From any starting progress [p], for either target and any run of
    ticks with positive deltas towards that target, every tick lands
    strictly between the previous value and the target (and rests on the
    target once there): the values move monotonically towards the target,
    never cross it, and all lie between [p] and the target. *)
Theorem morph_monotone_no_overshoot
  (p : R) (mode : TreeMode) (deltas : list R)
  (Hpos : Forall (fun d => 0 < d) deltas) :
  let trace := morph_trace p (map (fun d => (mode, d)) deltas) in
  approaches (mode_target mode) p trace /\
  Forall (between p (mode_target mode)) trace.
Proof.
  intros trace.
  assert (Happ : approaches (mode_target mode) p trace)
    by (apply morph_trace_approaches; assumption).
  split; [assumption |].
  apply (approaches_between _ p trace p); [| assumption].
  unfold between. lra.
Qed.

Lemma morph_monotone_no_overshoot_witness :
  let trace := morph_trace 0 (map (fun d => (TREE_SHAPE, d)) [1; 0.5]) in
  approaches 1 0 trace /\ Forall (between 0 1) trace.
Proof.
  apply (morph_monotone_no_overshoot 0 TREE_SHAPE [1; 0.5]).
  repeat constructor; lra.
Defined.

(** C3.  Starting from progress 0, with the target of every frame 0 or 1
    and every delta non-negative, the progress after every tick lies in
    [0, 1]. *)
Theorem morph_progress_in_unit_interval
  (frames : list (TreeMode * R))
  (Hnn : Forall (fun f => 0 <= snd f) frames) :
  Forall (fun q => 0 <= q <= 1) (morph_trace 0 frames) /\
  0 <= morph_run 0 frames <= 1.
Proof. apply morph_trace_unit; [assumption | lra]. Qed.

Lemma morph_progress_in_unit_interval_witness :
  Forall (fun q => 0 <= q <= 1)
    (morph_trace 0 [(TREE_SHAPE, 1); (SCATTERED, 0); (TREE_SHAPE, 100)]) /\
  0 <= morph_run 0 [(TREE_SHAPE, 1); (SCATTERED, 0); (TREE_SHAPE, 100)] <= 1.
Proof.
  apply (morph_progress_in_unit_interval
           [(TREE_SHAPE, 1); (SCATTERED, 0); (TREE_SHAPE, 100)]).
  repeat constructor; simpl; lra.
Defined.

(** ** The samplers *)

Section Samplers.

Lemma Math_pow_unit (u : R) : 0 <= u < 1 -> 0 <= Math_pow u 0.8 < 1.
Proof.
  intros [H0 H1]. unfold Math_pow.
  destruct (Rlt_dec 0 u) as [Hpos | _]; [| lra].
  unfold Rpower.
  assert (Hln : ln u < 0).
  { rewrite <- ln_1. apply ln_increasing; assumption. }
  assert (Hexp : exp (0.8 * ln u) < exp 0) by (apply exp_increasing; lra).
  rewrite exp_0 in Hexp.
  pose proof (exp_pos (0.8 * ln u)). lra.
Qed.

Lemma sqrt_unit (u : R) : 0 <= u < 1 -> 0 <= sqrt u <= 1.
Proof.
  intros [H0 H1]. split; [apply sqrt_pos |].
  rewrite <- sqrt_1. apply sqrt_le_1_alt. lra.
Qed.

Lemma sin_cos_sq (a : R) : sin a * sin a + cos a * cos a = 1.
Proof. pose proof (sin2_cos2 a) as H. unfold Rsqr in H. exact H. Qed.

Lemma sqrt_sq_nonneg (r a : R) : 0 <= r -> a = r * r -> sqrt a = r.
Proof. intros Hr ->. apply sqrt_square. assumption. Qed.

(** A point of the sphere cloud is at distance [sr] from the origin. *)
Lemma scatterShell_norm (sr sTheta sPhi : R) :
  0 <= sr -> norm (scatterShell sr sTheta sPhi) = sr.
Proof.
  intros Hsr. unfold norm, norm2, scatterShell; simpl.
  apply sqrt_sq_nonneg; [assumption |].
  pose proof (sin_cos_sq sTheta) as Ht.
  pose proof (sin_cos_sq sPhi) as Hp.
  transitivity
    (sr * sr * (sin sPhi * sin sPhi *
                  (sin sTheta * sin sTheta + cos sTheta * cos sTheta) +
                cos sPhi * cos sPhi)); [ring |].
  rewrite Ht. rewrite Rmult_1_r. rewrite Hp. ring.
Qed.

(** A point at polar coordinates [(rad, theta)] around the trunk is at
    horizontal distance [rad]. *)
Lemma radial_polar (rad theta y : R) :
  0 <= rad -> radial (Vec3 (rad * cos theta) y (rad * sin theta)) = rad.
Proof.
  intros Hr. unfold radial; simpl.
  apply sqrt_sq_nonneg; [assumption |].
  pose proof (sin_cos_sq theta) as Ht.
  transitivity (rad * rad * (sin theta * sin theta + cos theta * cos theta));
    [ring | rewrite Ht; ring].
Qed.

Lemma norm2_split (v : vec3) :
  norm2 v = (vx v * vx v + vz v * vz v) + vy v * vy v.
Proof. unfold norm2. ring. Qed.

Lemma radial_sq (v : vec3) : radial v * radial v = vx v * vx v + vz v * vz v.
Proof. unfold radial. apply sqrt_sqrt. nra. Qed.

Lemma radial_nonneg (v : vec3) : 0 <= radial v.
Proof. unfold radial. apply sqrt_pos. Qed.

Lemma norm_nonneg (v : vec3) : 0 <= norm v.
Proof. unfold norm. apply sqrt_pos. Qed.

Lemma norm_sq (v : vec3) : norm v * norm v = norm2 v.
Proof. unfold norm. apply sqrt_sqrt. unfold norm2. nra. Qed.

(** The distance from the origin, from the horizontal distance and the
    height. *)
Lemma norm_le_of_radial (v : vec3) (r h d : R) :
  0 <= d -> radial v <= r -> Rabs (vy v) <= h -> r * r + h * h <= d * d ->
  norm v <= d.
Proof.
  intros Hd Hr Hh Hsum.
  pose proof (norm_nonneg v) as Hn. pose proof (norm_sq v) as Hsq.
  rewrite norm2_split, <- radial_sq in Hsq.
  pose proof (radial_nonneg v) as Hrn.
  pose proof (Rabs_pos (vy v)) as Hap.
  assert (Hy : vy v * vy v = Rabs (vy v) * Rabs (vy v)).
  { unfold Rabs. destruct (Rcase_abs (vy v)); ring. }
  rewrite Hy in Hsq.
  destruct (Rle_or_lt (norm v) d) as [Hle | Hgt]; [assumption |].
  exfalso. nra.
Qed.

Lemma coord_le_norm (v : vec3) :
  Rabs (vx v) <= norm v /\ Rabs (vy v) <= norm v /\ Rabs (vz v) <= norm v.
Proof.
  pose proof (norm_nonneg v) as Hn. pose proof (norm_sq v) as Hsq.
  unfold norm2 in Hsq.
  repeat split; apply Rabs_le; split; nra.
Qed.

End Samplers.

(** ** Typed arrays and the loop test *)

Section Arrays.

Lemma Float32Array_new_Normal (len : jsnum) (a : list R) :
  Float32Array_new len = Normal a ->
  length a = count_len len /\ a = replicate (count_len len) 0 /\
  len <> PosInf /\ len <> NegInf /\
  (forall z, len = Fin z -> (0 <= z)%Z).
Proof.
  destruct len as [z | q | | |]; simpl; try discriminate.
  - destruct (Z.ltb_spec z 0) as [Hneg | Hnn]; [discriminate |].
    intros [= <-]. rewrite length_replicate.
    repeat split; try discriminate. intros z' [= <-]. assumption.
  - destruct (Z.ltb_spec (ToInteger q) 0) as [Hneg | Hnn]; [discriminate |].
    intros [= <-]. rewrite length_replicate.
    repeat split; try discriminate.
  - intros [= <-]. repeat split; try discriminate.
Qed.

Lemma count_len_times (count : jsnum) (k : nat) :
  whole_count count ->
  (forall z, count = Fin z -> (0 <= z)%Z) ->
  count_len (js_times count (Z.of_nat k)) = (count_len count * k)%nat.
Proof.
  destruct count as [z | q | | |]; simpl; intros Hw Hz;
    try reflexivity; try contradiction.
  specialize (Hz z eq_refl). rewrite Z2Nat.inj_mul by lia.
  rewrite Nat2Z.id. reflexivity.
Qed.

Lemma js_lt_true (i : nat) (count : jsnum) :
  js_lt i count = true -> whole_count count -> (i < count_len count)%nat.
Proof.
  destruct count as [z | q | | |]; simpl; try discriminate.
  - intros H%Z.ltb_lt _. lia.
  - intros _ [].
  - intros _ [].
Qed.

Lemma js_lt_false (i : nat) (count : jsnum) :
  js_lt i count = false -> whole_count count -> (count_len count <= i)%nat.
Proof.
  destruct count as [z | q | | |]; simpl; try discriminate.
  - intros H%Z.ltb_ge _. lia.
  - intros _ [].
  - intros _ _. lia.
  - intros _ _. lia.
Qed.

Lemma rng_ok_tail (s : rng) (k : nat) :
  rng_ok s -> rng_ok (fun n => s (k + n)%nat).
Proof. intros H n. apply H. Qed.

End Arrays.

(** ** The generating loop of Foliage *)

Section FoliageLoop.

Import Foliage.

Variable normals : nat -> vec3.

Lemma length_write3 (i : nat) (p : vec3) (a : list R) :
  length (write3 i p a) = length a.
Proof. unfold write3. rewrite !length_insert. reflexivity. Qed.

Lemma fetch3_write3_ne (i j : nat) (p : vec3) (a : list R) :
  j <> i -> fetch3 (write3 i p a) j = fetch3 a j.
Proof.
  intros Hne. unfold fetch3, write3.
  rewrite !nth_lookup.
  rewrite !list_lookup_insert_ne by lia. reflexivity.
Qed.

Lemma fetch3_write3_eq (i : nat) (p : vec3) (a : list R) :
  (i * 3 + 2 < length a)%nat -> fetch3 (write3 i p a) i = p.
Proof.
  intros Hlen. unfold fetch3, write3. destruct p as [x y z]; simpl.
  rewrite !nth_lookup. f_equal.
  - rewrite !list_lookup_insert_ne by lia.
    rewrite list_lookup_insert_eq by lia. reflexivity.
  - rewrite list_lookup_insert_ne by lia.
    rewrite list_lookup_insert_eq by (rewrite length_insert; lia).
    reflexivity.
  - rewrite list_lookup_insert_eq by (rewrite !length_insert; lia).
    reflexivity.
Qed.

Lemma nth_insert_eq (i : nat) (x : R) (a : list R) :
  (i < length a)%nat -> nth i (<[i := x]> a) 0 = x.
Proof.
  intros H. rewrite nth_lookup, list_lookup_insert_eq by assumption.
  reflexivity.
Qed.

Lemma nth_insert_ne (i j : nat) (x : R) (a : list R) :
  j <> i -> nth j (<[i := x]> a) 0 = nth j a 0.
Proof.
  intros H. rewrite !nth_lookup, list_lookup_insert_ne by congruence.
  reflexivity.
Qed.

Lemma body_eq (i : nat) (b : buffers) (s : rng) :
  body i b s =
  (Buffers
     (write3 i
        (Vec3 (sqrt (s 2%nat) * ((1 - Math_pow (s 0%nat) 0.8) * radiusBase)
                 * cos (s 1%nat * PI * 2))
              (Math_pow (s 0%nat) 0.8 * height - height / 2)
              (sqrt (s 2%nat) * ((1 - Math_pow (s 0%nat) 0.8) * radiusBase)
                 * sin (s 1%nat * PI * 2)))
        (positions b))
     (write3 i
        (scatterShell (15 + s 3%nat * 10) (s 4%nat * PI * 2)
           (acos (2 * s 5%nat - 1)))
        (scatterPositions b))
     (<[i := s 6%nat]> (randoms b)),
   fun n => s (7 + n)%nat).
Proof. reflexivity. Qed.

(** One pass writes slot [i] of the three buffers and nothing else. *)
Lemma body_spec (i : nat) (b b' : buffers) (s s' : rng) :
  rng_ok s -> body i b s = (b', s') ->
  rng_ok s' /\
  length (positions b') = length (positions b) /\
  length (scatterPositions b') = length (scatterPositions b) /\
  length (randoms b') = length (randoms b) /\
  (forall j, j <> i -> vertex_at normals b' j = vertex_at normals b j) /\
  ((i * 3 + 2 < length (positions b))%nat ->
   (i * 3 + 2 < length (scatterPositions b))%nat ->
   (i < length (randoms b))%nat ->
   foliage_sampled (vertex_at normals b' i)).
Proof.
  intros Hs Hb. rewrite body_eq in Hb. injection Hb as <- <-. simpl.
  rewrite !length_write3, length_insert.
  split; [exact (rng_ok_tail s 7 Hs) |].
  do 3 (split; [reflexivity |]).
  split.
  - intros j Hj. unfold vertex_at; simpl.
    rewrite !fetch3_write3_ne by assumption.
    rewrite nth_insert_ne by assumption. reflexivity.
  - intros H1 H2 H3. unfold vertex_at; simpl.
    rewrite !fetch3_write3_eq by assumption.
    rewrite nth_insert_eq by assumption.
    exists (s 0%nat), (s 1%nat), (s 2%nat), (s 3%nat), (s 4%nat),
           (s 5%nat), (s 6%nat).
    unfold unit_draw. simpl.
    repeat split; try apply Hs.
Qed.

Lemma loop_filled (count : jsnum) :
  whole_count count ->
  forall fuel i b s b' s',
    rng_ok s -> filled normals (count_len count) i b ->
    loop fuel count i b s = (Some b', s') ->
    filled normals (count_len count) (count_len count) b'.
Proof.
  intros Hinf. induction fuel as [| fuel IH]; intros i b s b' s' Hs Hf Hl.
  - discriminate.
  - simpl in Hl. destruct (js_lt i count) eqn:Hlt.
    + unfold bind in Hl. destruct (body i b s) as [b1 s1] eqn:Hbody.
      pose proof (js_lt_true i count Hlt Hinf) as Hi.
      destruct Hf as (Lp & Ls & Lr & Hsam).
      destruct (body_spec i b b1 s s1 Hs Hbody)
        as (Hs1 & Lp1 & Ls1 & Lr1 & Hother & Hnew).
      apply (IH (S i) b1 s1 b' s' Hs1); [| assumption].
      unfold filled. rewrite Lp1, Ls1, Lr1.
      do 3 (split; [assumption |]).
      intros j Hj Hjn. destruct (Nat.eq_dec j i) as [-> | Hne].
      * apply Hnew; lia.
      * rewrite Hother by assumption. apply Hsam; lia.
    + unfold ret in Hl. injection Hl as <- <-.
      pose proof (js_lt_false i count Hlt Hinf) as Hi.
      destruct Hf as (Lp & Ls & Lr & Hsam).
      unfold filled. do 3 (split; [assumption |]).
      intros j Hj _. apply Hsam; lia.
Qed.

(** With fuel for [n - i + 1] tests the loop over a count [n] returns. *)
Lemma loop_returns (n : nat) :
  forall fuel i b s,
    (i <= n)%nat -> (n - i < fuel)%nat ->
    exists b' s', loop fuel (Fin (Z.of_nat n)) i b s = (Some b', s').
Proof.
  induction fuel as [| fuel IH]; intros i b s Hi Hfuel; [lia |].
  simpl. destruct (Z.ltb_spec (Z.of_nat i) (Z.of_nat n)) as [Hlt | Hge].
  - unfold bind. destruct (body i b s) as [b1 s1].
    apply IH; lia.
  - unfold ret. eauto.
Qed.

(** What [useMemo] returns: buffers for [count_len count] vertices, each
    of them written by a pass of the loop. *)
Lemma useMemo_sampled (fuel : nat) (count : jsnum) (s s' : rng)
  (b : buffers) :
  whole_count count ->
  rng_ok s -> useMemo fuel count s = (Some (Normal b), s') ->
  vertex_count b = count_len count /\
  length (scatterPositions b) = (count_len count * 3)%nat /\
  length (randoms b) = count_len count /\
  Forall foliage_sampled (vertices normals b).
Proof.
  intros Hw Hs Hu. unfold useMemo in Hu.
  destruct (Float32Array_new (js_times count 3)) as [pos | e] eqn:Hpos;
    [| discriminate].
  destruct (Float32Array_new count) as [rnd | e] eqn:Hrnd; [| discriminate].
  unfold bind, ret in Hu.
  destruct (loop fuel count 0 (Buffers pos pos rnd) s) as [[b1 |] s1] eqn:Hl;
    simpl in Hu; [| discriminate].
  injection Hu as <- <-.
  destruct (Float32Array_new_Normal _ _ Hrnd) as (Lr & _ & Hp & _ & Hz).
  destruct (Float32Array_new_Normal _ _ Hpos) as (Lp & _).
  change 3%Z with (Z.of_nat 3) in Lp.
  rewrite (count_len_times count 3 Hw Hz) in Lp.
  assert (Hf : filled normals (count_len count) 0 (Buffers pos pos rnd)).
  { unfold filled; simpl. repeat split; try assumption. intros j Hj; lia. }
  destruct (loop_filled count Hw fuel 0 _ s b1 s1 Hs Hf Hl)
    as (Lp1 & Ls1 & Lr1 & Hsam).
  assert (Hvc : vertex_count b1 = count_len count).
  { unfold vertex_count. rewrite Lp1. apply Nat.div_mul. lia. }
  repeat split; try assumption.
  unfold vertices. rewrite Hvc. apply Forall_forall.
  intros v Hv. apply list_elem_of_In in Hv.
  apply in_map_iff in Hv as (j & <- & Hj). apply in_seq in Hj.
  apply Hsam; lia.
Qed.

Lemma useMemo_returns (n : nat) (fuel : nat) (s : rng) :
  (n < fuel)%nat ->
  exists b s', useMemo fuel (Fin (Z.of_nat n)) s = (Some (Normal b), s').
Proof.
  intros Hfuel. unfold useMemo. simpl.
  destruct (Z.ltb_spec (Z.of_nat n * 3) 0) as [Hneg | _]; [lia |].
  destruct (Z.ltb_spec (Z.of_nat n) 0) as [Hneg | _]; [lia |].
  unfold bind, ret.
  destruct (loop_returns n fuel 0
              (Buffers (replicate (Z.to_nat (Z.of_nat n * 3)) 0)
                 (replicate (Z.to_nat (Z.of_nat n * 3)) 0)
                 (replicate (Z.to_nat (Z.of_nat n)) 0)) s)
    as (b' & s' & Hl); [lia | lia |].
  rewrite Hl. simpl. eauto.
Qed.

End FoliageLoop.

(** ** The generating loop of Ornaments *)

Section OrnamentsLoop.

Import Ornaments.

Lemma ornament_body_sampled (i : nat) (s s' : rng) (item : PositionData) :
  rng_ok s -> body i s = (item, s') ->
  rng_ok s' /\ ornament_sampled i item.
Proof.
  intros Hs Hb. unfold body, bind, Math_random, ret in Hb.
  injection Hb as <- <-.
  split; [exact (rng_ok_tail s 7 Hs) |].
  exists (s 0%nat), (s 1%nat), (s 2%nat), (s 3%nat), (s 4%nat),
         (s 5%nat), (s 6%nat).
  unfold unit_draw. repeat split; try apply Hs.
Qed.

Lemma all_sampled_snoc (items : list PositionData) (item : PositionData) :
  all_sampled items -> ornament_sampled (length items) item ->
  all_sampled (items ++ [item]).
Proof.
  intros Hall Hitem j x Hj.
  apply lookup_snoc_Some in Hj as [[Hlt Hj] | [-> ->]].
  - exact (Hall j x Hj).
  - assumption.
Qed.

Lemma ornament_loop_sampled (count : jsnum) :
  whole_count count ->
  forall fuel i items s items' s',
    rng_ok s -> length items = i -> (i <= count_len count)%nat ->
    all_sampled items ->
    loop fuel count i items s = (Some items', s') ->
    length items' = count_len count /\ all_sampled items'.
Proof.
  intros Hinf.
  induction fuel as [| fuel IH]; intros i items s items' s' Hs Hlen Hi Hall Hl.
  - discriminate.
  - simpl in Hl. destruct (js_lt i count) eqn:Hlt.
    + unfold bind in Hl. destruct (body i s) as [item s1] eqn:Hbody.
      pose proof (js_lt_true i count Hlt Hinf) as Hi'.
      destruct (ornament_body_sampled i s s1 item Hs Hbody) as [Hs1 Hitem].
      apply (IH (S i) (items ++ [item]) s1 items' s' Hs1).
      * rewrite length_app; simpl. lia.
      * lia.
      * apply all_sampled_snoc; [assumption | rewrite Hlen; assumption].
      * assumption.
    + unfold ret in Hl. injection Hl as <- <-.
      pose proof (js_lt_false i count Hlt Hinf) as Hi'.
      split; [lia | assumption].
Qed.

Lemma ornament_loop_returns (n : nat) :
  forall fuel i items s,
    (i <= n)%nat -> (n - i < fuel)%nat ->
    exists items' s',
      loop fuel (Fin (Z.of_nat n)) i items s = (Some items', s').
Proof.
  induction fuel as [| fuel IH]; intros i items s Hi Hfuel; [lia |].
  simpl. destruct (Z.ltb_spec (Z.of_nat i) (Z.of_nat n)) as [Hlt | Hge].
  - unfold bind. destruct (body i s) as [item s1].
    apply IH; lia.
  - unfold ret. eauto.
Qed.

(** The test [i < Infinity] never fails: the loop uses up any fuel. *)
Lemma ornament_loop_PosInf :
  forall fuel i items s, fst (loop fuel PosInf i items s) = None.
Proof.
  induction fuel as [| fuel IH]; intros i items s; [reflexivity |].
  simpl. unfold bind. destruct (body i s) as [item s1]. apply IH.
Qed.

Lemma ornament_useMemo_sampled (fuel : nat) (count : jsnum) (s s' : rng)
  (data : list PositionData) :
  whole_count count ->
  rng_ok s -> useMemo fuel count s = (Some data, s') ->
  length data = count_len count /\ all_sampled data.
Proof.
  intros Hinf Hs Hu. unfold useMemo in Hu.
  apply (ornament_loop_sampled count Hinf fuel 0 [] s data s' Hs);
    [reflexivity | lia | | assumption].
  intros j item Hj. rewrite lookup_nil in Hj. discriminate.
Qed.

Lemma ornament_useMemo_returns (n fuel : nat) (s : rng) :
  (n < fuel)%nat ->
  exists data s', useMemo fuel (Fin (Z.of_nat n)) s = (Some data, s').
Proof.
  intros Hfuel. unfold useMemo. apply ornament_loop_returns; lia.
Qed.

End OrnamentsLoop.

(** ** What a sampled element satisfies *)

Section SampledFacts.

Lemma unit_shell (lo spread u : R) :
  0 <= lo -> 0 <= spread -> unit_draw u ->
  0 <= lo + u * spread /\ lo <= lo + u * spread <= lo + spread.
Proof. unfold unit_draw. intros Hlo Hsp Hu. nra. Qed.

Lemma foliage_scatter_norm (v : Foliage.vertex) :
  foliage_sampled v -> 15 <= norm (Foliage.aScatterPos v) <= 15 + 10.
Proof.
  intros (u1 & u2 & u3 & u4 & u5 & u6 & u7 & Hu & _ & Hsc & _).
  destruct Hu as (_ & _ & _ & Hu4 & _).
  destruct (unit_shell 15 10 u4 ltac:(lra) ltac:(lra) Hu4) as [Hnn Hin].
  rewrite Hsc, scatterShell_norm by assumption. exact Hin.
Qed.

Lemma ornament_scatter_norm (i : nat) (item : Ornaments.PositionData) :
  ornament_sampled i item -> 12 <= norm (Ornaments.scatter item) <= 12 + 12.
Proof.
  intros (u1 & u2 & u3 & u4 & u5 & u6 & u7 & Hu & ->). simpl.
  destruct Hu as (_ & Hu2 & _).
  destruct (unit_shell 12 12 u2 ltac:(lra) ltac:(lra) Hu2) as [Hnn Hin].
  rewrite scatterShell_norm by assumption. exact Hin.
Qed.

(** Height and cone profile of a Foliage tree point. *)
Lemma foliage_tree_in_cone (v : Foliage.vertex) :
  foliage_sampled v ->
  let p := Foliage.aTreePos v in
  let yNorm := yNorm_of Foliage.height (vy p) in
  - Foliage.height / 2 <= vy p <= Foliage.height / 2 /\
  0 <= yNorm < 1 /\
  radial p <= Foliage.radiusBase * (1 - yNorm).
Proof.
  intros (u1 & u2 & u3 & u4 & u5 & u6 & u7 & Hu & Htree & _).
  destruct Hu as (Hu1 & _ & Hu3 & _).
  pose proof (Math_pow_unit u1 Hu1) as Hy.
  pose proof (sqrt_unit u3 Hu3) as Hq.
  cbv zeta. rewrite Htree. simpl.
  set (yN := Math_pow u1 0.8) in *.
  set (q := sqrt u3) in *.
  unfold Foliage.height, Foliage.radiusBase, yNorm_of.
  replace ((yN * 14 - 14 / 2 + 14 / 2) / 14) with yN by field.
  rewrite radial_polar by nra.
  repeat split; nra.
Qed.

(** An Ornaments tree point: on the cone surface, at the spiral angle. *)
Lemma ornament_tree_on_cone (i : nat) (item : Ornaments.PositionData) :
  ornament_sampled i item ->
  let p := Ornaments.tree item in
  let yNorm := yNorm_of Ornaments.height (vy p) in
  let r := Ornaments.radiusBase * (1 - yNorm) in
  let theta := Ornaments.spiral_theta (vy p) i in
  0 <= yNorm < 1 /\
  - Ornaments.height / 2 <= vy p < Ornaments.height / 2 /\
  radial p = r /\
  vx p = r * cos theta /\ vz p = r * sin theta.
Proof.
  intros (u1 & u2 & u3 & u4 & u5 & u6 & u7 & Hu & ->).
  destruct Hu as (Hu1 & _). unfold unit_draw in Hu1.
  cbv zeta. simpl.
  unfold Ornaments.height, Ornaments.radiusBase, yNorm_of.
  replace ((u1 * 13 - 13 / 2 + 13 / 2) / 13) with u1 by field.
  replace ((1 - u1) * 4.8) with (4.8 * (1 - u1)) by ring.
  rewrite radial_polar by nra.
  repeat split; try reflexivity; nra.
Qed.

Lemma foliage_tree_norm (v : Foliage.vertex) :
  foliage_sampled v -> norm (Foliage.aTreePos v) <= sqrt (5 ^ 2 + 7 ^ 2).
Proof.
  intros Hv. destruct (foliage_tree_in_cone v Hv) as (Hy & HyN & Hr).
  unfold Foliage.height, Foliage.radiusBase in *.
  assert (H74 : 0 <= 5 ^ 2 + 7 ^ 2) by nra.
  apply (norm_le_of_radial _ 5 7).
  - apply sqrt_pos.
  - nra.
  - apply Rabs_le. lra.
  - rewrite sqrt_sqrt by assumption. lra.
Qed.

Lemma ornament_tree_norm (i : nat) (item : Ornaments.PositionData) :
  ornament_sampled i item ->
  norm (Ornaments.tree item) <= sqrt (4.8 ^ 2 + 6.5 ^ 2).
Proof.
  intros Hv.
  destruct (ornament_tree_on_cone i item Hv) as (HyN & Hy & Hr & _).
  unfold Ornaments.height, Ornaments.radiusBase in *.
  assert (H65 : 0 <= 4.8 ^ 2 + 6.5 ^ 2) by nra.
  apply (norm_le_of_radial _ 4.8 6.5).
  - apply sqrt_pos.
  - rewrite Hr. nra.
  - apply Rabs_le. lra.
  - rewrite sqrt_sqrt by assumption. lra.
Qed.

Lemma sqrt_lt_of_sq (a d : R) : 0 <= a -> 0 < d -> a < d * d -> sqrt a < d.
Proof.
  intros Ha Hd Hlt.
  rewrite <- (sqrt_square d) by lra.
  apply sqrt_lt_1_alt. lra.
Qed.

Lemma sqrt_gt_of_sq (a d : R) : 0 <= d -> d * d < a -> d < sqrt a.
Proof.
  intros Hd Hlt.
  rewrite <- (sqrt_square d) at 1 by lra.
  apply sqrt_lt_1_alt. nra.
Qed.

End SampledFacts.

(** ** The generated fields *)

Section Fields.

Lemma Forall_weaken {A : Type} (P Q : A -> Prop) (l : list A) :
  (forall x, P x -> Q x) -> Forall P l -> Forall Q l.
Proof. intros HPQ H. induction H; constructor; auto. Qed.

Lemma all_sampled_Forall (Q : Ornaments.PositionData -> Prop)
  (data : list Ornaments.PositionData) :
  (forall i item, ornament_sampled i item -> Q item) ->
  all_sampled data -> Forall Q data.
Proof.
  intros HQ Hall. apply Forall_lookup. intros i item Hi.
  exact (HQ i item (Hall i item Hi)).
Qed.

(** A Foliage field of [n] particles is produced, every vertex of it
    written by a pass of the loop. *)
Lemma foliage_field (n fuel : nat) (s : rng) (normals : nat -> vec3) :
  rng_ok s -> (n < fuel)%nat ->
  exists b s',
    Foliage.useMemo fuel (Fin (Z.of_nat n)) s = (Some (Normal b), s') /\
    Foliage.vertex_count b = n /\
    Forall foliage_sampled (Foliage.vertices normals b).
Proof.
  intros Hs Hfuel.
  destruct (useMemo_returns n fuel s Hfuel) as (b & s' & Hu).
  destruct (useMemo_sampled normals fuel (Fin (Z.of_nat n)) s s' b I Hs Hu)
    as (Hvc & _ & _ & Hall).
  simpl in Hvc. rewrite Nat2Z.id in Hvc.
  exists b, s'. repeat split; assumption.
Qed.

(** An Ornaments item list of [n] instances is produced, item [i]
    sampled at index [i]. *)
Lemma ornament_field (n fuel : nat) (s : rng) :
  rng_ok s -> (n < fuel)%nat ->
  exists data s',
    Ornaments.useMemo fuel (Fin (Z.of_nat n)) s = (Some data, s') /\
    length data = n /\
    all_sampled data.
Proof.
  intros Hs Hfuel.
  destruct (ornament_useMemo_returns n fuel s Hfuel) as (data & s' & Hu).
  destruct (ornament_useMemo_sampled fuel (Fin (Z.of_nat n)) s s' data I
              Hs Hu)
    as (Hlen & Hall).
  simpl in Hlen. rewrite Nat2Z.id in Hlen.
  exists data, s'. repeat split; assumption.
Qed.

(** Points kept apart by their distances from the origin. *)
Lemma disjoint_of_bounds {A : Type} (sc tr : A -> vec3) (c lo : R)
  (l : list A) :
  c < lo ->
  Forall (fun v => norm (tr v) <= c /\ lo <= norm (sc v)) l ->
  Forall (fun v => Forall (fun w => sc v <> tr w) l) l.
Proof.
  intros Hc Hb. rewrite Forall_forall in Hb.
  apply Forall_forall. intros v Hv. apply Forall_forall. intros w Hw Heq.
  destruct (Hb v Hv) as [_ Hlo]. destruct (Hb w Hw) as [Hhi _].
  rewrite Heq in Hlo. lra.
Qed.

End Fields.

(** C4.  Both fields are generated, and every scatter position lies at a
    distance from the origin within [minRadius, minRadius + radiusSpread]:
    [15, 25] for the foliage particles, [12, 24] for the ornaments. *)
Theorem scatter_distance_in_shell
  (n fuel : nat) (s : rng) (normals : nat -> vec3)
  (Hs : rng_ok s) (Hfuel : (n < fuel)%nat) :
  (exists b s',
     Foliage.useMemo fuel (Fin (Z.of_nat n)) s = (Some (Normal b), s') /\
     Foliage.vertex_count b = n /\
     Forall (fun v => 15 <= norm (Foliage.aScatterPos v) <= 15 + 10)
       (Foliage.vertices normals b)) /\
  (exists data s',
     Ornaments.useMemo fuel (Fin (Z.of_nat n)) s = (Some data, s') /\
     length data = n /\
     Forall (fun item => 12 <= norm (Ornaments.scatter item) <= 12 + 12)
       data).
Proof.
  split.
  - destruct (foliage_field n fuel s normals Hs Hfuel)
      as (b & s' & Hu & Hvc & Hall).
    exists b, s'. repeat split; try assumption.
    exact (Forall_weaken _ _ _ foliage_scatter_norm Hall).
  - destruct (ornament_field n fuel s Hs Hfuel)
      as (data & s' & Hu & Hlen & Hall).
    exists data, s'. repeat split; try assumption.
    exact (all_sampled_Forall _ data ornament_scatter_norm Hall).
Qed.

Lemma scatter_distance_in_shell_witness :
  (exists b s',
     Foliage.useMemo 3 (Fin 2) (fun _ => 1 / 2) = (Some (Normal b), s') /\
     Foliage.vertex_count b = 2%nat /\
     Forall (fun v => 15 <= norm (Foliage.aScatterPos v) <= 15 + 10)
       (Foliage.vertices (fun _ => Vec3 0 0 0) b)) /\
  (exists data s',
     Ornaments.useMemo 3 (Fin 2) (fun _ => 1 / 2) = (Some data, s') /\
     length data = 2%nat /\
     Forall (fun item => 12 <= norm (Ornaments.scatter item) <= 12 + 12)
       data).
Proof.
  apply (scatter_distance_in_shell 2 3 (fun _ => 1 / 2) (fun _ => Vec3 0 0 0)).
  - intros k. lra.
  - lia.
Defined.

(** C5.  The foliage field is generated, and every tree-volume target
    point has its height within [-height/2, height/2] and its horizontal
    radius at most [baseRadius * (1 - yNorm)], where [yNorm] is the
    normalised height of the point. *)
Theorem tree_volume_inside_cone
  (n fuel : nat) (s : rng) (normals : nat -> vec3)
  (Hs : rng_ok s) (Hfuel : (n < fuel)%nat) :
  exists b s',
    Foliage.useMemo fuel (Fin (Z.of_nat n)) s = (Some (Normal b), s') /\
    Foliage.vertex_count b = n /\
    Forall (fun v =>
              let p := Foliage.aTreePos v in
              let yNorm := yNorm_of Foliage.height (vy p) in
              - Foliage.height / 2 <= vy p <= Foliage.height / 2 /\
              0 <= yNorm < 1 /\
              radial p <= Foliage.radiusBase * (1 - yNorm))
      (Foliage.vertices normals b).
Proof.
  destruct (foliage_field n fuel s normals Hs Hfuel)
    as (b & s' & Hu & Hvc & Hall).
  exists b, s'. repeat split; try assumption.
  exact (Forall_weaken _ _ _ foliage_tree_in_cone Hall).
Qed.

Lemma tree_volume_inside_cone_witness :
  exists b s',
    Foliage.useMemo 4 (Fin 3) (fun _ => 1 / 4) = (Some (Normal b), s') /\
    Foliage.vertex_count b = 3%nat /\
    Forall (fun v =>
              let p := Foliage.aTreePos v in
              let yNorm := yNorm_of Foliage.height (vy p) in
              - Foliage.height / 2 <= vy p <= Foliage.height / 2 /\
              0 <= yNorm < 1 /\
              radial p <= Foliage.radiusBase * (1 - yNorm))
      (Foliage.vertices (fun _ => Vec3 0 1 0) b).
Proof.
  apply (tree_volume_inside_cone 3 4 (fun _ => 1 / 4) (fun _ => Vec3 0 1 0)).
  - intros k. lra.
  - lia.
Defined.

(** C10.  The scattered and the assembled configuration are disjoint: in
    both fields every tree target position is no farther from the origin
    than [sqrt (5^2 + 7^2)], about 8.61 (foliage), or
    [sqrt (4.8^2 + 6.5^2)], about 8.08 (ornaments), which is strictly less
    than the least scatter distance, 15 or 12; so no scatter position of a
    field equals a tree position of that field. *)
Theorem scatter_and_tree_disjoint
  (n fuel : nat) (s : rng) (normals : nat -> vec3)
  (Hs : rng_ok s) (Hfuel : (n < fuel)%nat) :
  8.6 < sqrt (5 ^ 2 + 7 ^ 2) < 8.61 /\
  8.08 < sqrt (4.8 ^ 2 + 6.5 ^ 2) < 8.09 /\
  (exists b s',
     Foliage.useMemo fuel (Fin (Z.of_nat n)) s = (Some (Normal b), s') /\
     Foliage.vertex_count b = n /\
     let vs := Foliage.vertices normals b in
     Forall (fun v => norm (Foliage.aTreePos v) <= sqrt (5 ^ 2 + 7 ^ 2) /\
                      15 <= norm (Foliage.aScatterPos v)) vs /\
     Forall (fun v =>
               Forall (fun w => Foliage.aScatterPos v <> Foliage.aTreePos w)
                 vs) vs) /\
  (exists data s',
     Ornaments.useMemo fuel (Fin (Z.of_nat n)) s = (Some data, s') /\
     length data = n /\
     Forall (fun item =>
               norm (Ornaments.tree item) <= sqrt (4.8 ^ 2 + 6.5 ^ 2) /\
               12 <= norm (Ornaments.scatter item)) data /\
     Forall (fun item =>
               Forall (fun other =>
                         Ornaments.scatter item <> Ornaments.tree other)
                 data) data).
Proof.
  assert (B1 : 8.6 < sqrt (5 ^ 2 + 7 ^ 2) < 8.61).
  { split; [apply sqrt_gt_of_sq | apply sqrt_lt_of_sq]; lra. }
  assert (B2 : 8.08 < sqrt (4.8 ^ 2 + 6.5 ^ 2) < 8.09).
  { split; [apply sqrt_gt_of_sq | apply sqrt_lt_of_sq]; lra. }
  assert (H1 : sqrt (5 ^ 2 + 7 ^ 2) < 15) by lra.
  assert (H2 : sqrt (4.8 ^ 2 + 6.5 ^ 2) < 12) by lra.
  split; [assumption |]. split; [assumption |]. split.
  - destruct (foliage_field n fuel s normals Hs Hfuel)
      as (b & s' & Hu & Hvc & Hall).
    exists b, s'. split; [assumption |]. split; [assumption |].
    cbv zeta.
    assert (Hb : Forall
                   (fun v => norm (Foliage.aTreePos v) <= sqrt (5 ^ 2 + 7 ^ 2)
                             /\ 15 <= norm (Foliage.aScatterPos v))
                   (Foliage.vertices normals b)).
    { apply (Forall_weaken foliage_sampled); [| assumption].
      intros v Hv. split; [exact (foliage_tree_norm v Hv) |].
      apply (foliage_scatter_norm v Hv). }
    split; [assumption |].
    exact (disjoint_of_bounds _ _ _ _ _ H1 Hb).
  - destruct (ornament_field n fuel s Hs Hfuel)
      as (data & s' & Hu & Hlen & Hall).
    exists data, s'. split; [assumption |]. split; [assumption |].
    assert (Hb : Forall
                   (fun item =>
                      norm (Ornaments.tree item) <= sqrt (4.8 ^ 2 + 6.5 ^ 2)
                      /\ 12 <= norm (Ornaments.scatter item)) data).
    { apply all_sampled_Forall; [| assumption].
      intros i item Hv. split; [exact (ornament_tree_norm i item Hv) |].
      apply (ornament_scatter_norm i item Hv). }
    split; [assumption |].
    exact (disjoint_of_bounds _ _ _ _ _ H2 Hb).
Qed.

Lemma scatter_and_tree_disjoint_witness :
  8.6 < sqrt (5 ^ 2 + 7 ^ 2) < 8.61 /\
  8.08 < sqrt (4.8 ^ 2 + 6.5 ^ 2) < 8.09 /\
  (exists b s',
     Foliage.useMemo 3 (Fin 2) (fun _ => 3 / 4) = (Some (Normal b), s') /\
     Foliage.vertex_count b = 2%nat /\
     let vs := Foliage.vertices (fun _ => Vec3 0 0 0) b in
     Forall (fun v => norm (Foliage.aTreePos v) <= sqrt (5 ^ 2 + 7 ^ 2) /\
                      15 <= norm (Foliage.aScatterPos v)) vs /\
     Forall (fun v =>
               Forall (fun w => Foliage.aScatterPos v <> Foliage.aTreePos w)
                 vs) vs) /\
  (exists data s',
     Ornaments.useMemo 3 (Fin 2) (fun _ => 3 / 4) = (Some data, s') /\
     length data = 2%nat /\
     Forall (fun item =>
               norm (Ornaments.tree item) <= sqrt (4.8 ^ 2 + 6.5 ^ 2) /\
               12 <= norm (Ornaments.scatter item)) data /\
     Forall (fun item =>
               Forall (fun other =>
                         Ornaments.scatter item <> Ornaments.tree other)
                 data) data).
Proof.
  apply (scatter_and_tree_disjoint 2 3 (fun _ => 3 / 4) (fun _ => Vec3 0 0 0)).
  - intros k. lra.
  - lia.
Defined.

(** ** The spiral of the ornaments *)

Section Spiral.

Lemma sqrt5_bounds : 2 < sqrt 5 < 3.
Proof.
  split.
  - rewrite <- (sqrt_square 2) by lra. apply sqrt_lt_1_alt. lra.
  - apply sqrt_lt_of_sq; lra.
Qed.

Lemma PI_gt_3 : 3 < PI.
Proof. pose proof PI2_3_2. lra. Qed.

Lemma PI_bounds : 3.1415 < PI < 3.1421.
Proof.
  pose proof (PI_2_3_7_ineq 1) as H.
  unfold sum_f_R0, tg_alt, PI_2_3_7_tg, Ratan_seq in H.
  simpl in H. lra.
Qed.

Lemma sqrt5_tight : 2.236067 < sqrt 5 < 2.236069.
Proof.
  split.
  - apply sqrt_gt_of_sq; lra.
  - apply sqrt_lt_of_sq; lra.
Qed.

(** The golden angle is about 2.4 rad, and the step the source winds back
    by exceeds it by less than 0.0003 rad (1.618 for the golden ratio). *)
Lemma winding_step_near_golden_angle :
  2.399 < golden_angle < 2.401 /\
  golden_angle < winding_step < golden_angle + 0.0003.
Proof.
  unfold golden_angle, winding_step.
  pose proof PI_bounds as [P1 P2]. pose proof sqrt5_tight as [S1 S2].
  assert (A1 : 0.763931 < 3 - sqrt 5 < 0.763933) by lra.
  assert (E1 : 0 < sqrt 5 - 2.236 < 0.00007) by lra.
  assert (G : PI * (3 - sqrt 5) + PI * (sqrt 5 - 2.236)
              = (2 - 1.618) * (2 * PI)) by nra.
  repeat split; nra.
Qed.

(** Winding forward by 1.618 turns per index and winding back by
    [winding_step] per index end at the same azimuth. *)
Lemma spiral_theta_winds_back (y : R) (i : nat) :
  Ornaments.spiral_theta y i =
  y * 2 - INR i * winding_step + 2 * INR (2 * i) * PI.
Proof.
  unfold Ornaments.spiral_theta, winding_step.
  rewrite mult_INR. simpl INR. lra.
Qed.

Lemma indexed_from_sampled (data : list Ornaments.PositionData) :
  forall k,
    (forall j item, data !! j = Some item ->
                    ornament_sampled (k + j) item) ->
    Forall (fun p => ornament_sampled (fst p) (snd p)) (indexed_from k data).
Proof.
  induction data as [| x rest IH]; intros k H; simpl.
  - constructor.
  - constructor.
    + simpl. specialize (H 0%nat x eq_refl).
      rewrite Nat.add_0_r in H. exact H.
    + apply IH. intros j item Hj.
      replace (S k + j)%nat with (k + S j)%nat by lia.
      apply H. exact Hj.
Qed.

End Spiral.



(** ** The frame of the ornaments *)

Section OrnamentsFrame.

Import Ornaments.

Variables t time scaleBase : R.

Lemma forEach_length (data : list PositionData) :
  forall k m, length (forEach t time scaleBase data k m) = length m.
Proof.
  induction data as [| x rest IH]; intros k m; simpl; [reflexivity |].
  rewrite IH, length_insert. reflexivity.
Qed.

(** Slots below the running index are left as they are. *)
Lemma forEach_below (data : list PositionData) :
  forall k m i, (i < k)%nat ->
                forEach t time scaleBase data k m !! i = m !! i.
Proof.
  induction data as [| x rest IH]; intros k m i Hi; simpl; [reflexivity |].
  rewrite IH by lia. apply list_lookup_insert_ne. lia.
Qed.

(** Slot [k + j] receives the transform of item [j]. *)
Lemma forEach_lookup (data : list PositionData) :
  forall k m j item,
    data !! j = Some item -> (k + j < length m)%nat ->
    forEach t time scaleBase data k m !! (k + j)%nat =
    Some (instance_transform t time scaleBase item (k + j)).
Proof.
  induction data as [| x rest IH]; intros k m j item Hj Hlen.
  - rewrite lookup_nil in Hj. discriminate.
  - simpl. destruct j as [| j].
    + simpl in Hj. injection Hj as ->. rewrite Nat.add_0_r in *.
      rewrite forEach_below by lia.
      apply list_lookup_insert_eq. assumption.
    + simpl in Hj.
      replace (k + S j)%nat with (S k + j)%nat in * by lia.
      apply IH; [assumption | rewrite length_insert; assumption].
Qed.

End OrnamentsFrame.

(** C7.  In every frame the transform written for instance [i] has X and
    Y equal to the interpolation from scatter to tree by the cubic ease-out
    [1 - (1 - t)^3], plus a sine (X) or cosine (Y) of the time scaled by
    [(1 - t) * 0.5]; Z is the interpolated value itself.  At [t = 1] the
    position is the tree position. *)
Theorem ornament_frame_position
  (t time scaleBase : R) (data : list Ornaments.PositionData)
  (mesh : Ornaments.InstancedMesh) (i : nat) (item : Ornaments.PositionData)
  (Hi : data !! i = Some item)
  (Hlen : length (Ornaments.instanceMatrix mesh) = length data) :
  exists mesh' tr,
    Ornaments.useFrame (Some mesh) t time scaleBase data = Some mesh' /\
    Ornaments.instanceMatrix mesh' !! i = Some tr /\
    let e := 1 - (1 - t) ^ 3 in
    let sc := Ornaments.scatter item in
    let tg := Ornaments.tree item in
    vx (Ornaments.t_position tr) =
      MathUtils.lerp (vx sc) (vx tg) e + sin (time + INR i) * ((1 - t) * 0.5) /\
    vy (Ornaments.t_position tr) =
      MathUtils.lerp (vy sc) (vy tg) e
      + cos (time * 0.8 + INR i) * ((1 - t) * 0.5) /\
    vz (Ornaments.t_position tr) = MathUtils.lerp (vz sc) (vz tg) e /\
    Ornaments.t_position
      (Ornaments.instance_transform 1 time scaleBase item i) = tg.
Proof.
  assert (Hin : (i < length data)%nat) by (eapply lookup_lt_Some; eassumption).
  eexists. exists (Ornaments.instance_transform t time scaleBase item i).
  split; [reflexivity |]. split.
  - simpl. apply (forEach_lookup t time scaleBase data 0 _ i item Hi).
    simpl. lia.
  - cbv zeta. unfold Ornaments.instance_transform, Ornaments.easedT; simpl.
    repeat split; try reflexivity.
    destruct (Ornaments.tree item) as [x y z]. simpl.
    unfold MathUtils.lerp. f_equal; ring.
Qed.

Lemma ornament_frame_position_witness :
  exists mesh' tr,
    Ornaments.useFrame (Some (Ornaments.Mesh [Ornaments.identity] false))
      (1 / 2) 0 1
      [Ornaments.Build_PositionData (Vec3 1 2 3) (Vec3 12 0 0) (Vec3 0 0 0) 1]
    = Some mesh' /\
    Ornaments.instanceMatrix mesh' !! 0%nat = Some tr /\
    let e := 1 - (1 - 1 / 2) ^ 3 in
    vx (Ornaments.t_position tr) =
      MathUtils.lerp 12 1 e + sin (0 + INR 0) * ((1 - 1 / 2) * 0.5) /\
    vy (Ornaments.t_position tr) =
      MathUtils.lerp 0 2 e + cos (0 * 0.8 + INR 0) * ((1 - 1 / 2) * 0.5) /\
    vz (Ornaments.t_position tr) = MathUtils.lerp 0 3 e /\
    Ornaments.t_position
      (Ornaments.instance_transform 1 0 1
         (Ornaments.Build_PositionData (Vec3 1 2 3) (Vec3 12 0 0)
            (Vec3 0 0 0) 1) 0) =
      Vec3 1 2 3.
Proof.
  apply (ornament_frame_position (1 / 2) 0 1
           [Ornaments.Build_PositionData (Vec3 1 2 3) (Vec3 12 0 0)
              (Vec3 0 0 0) 1]
           (Ornaments.Mesh [Ornaments.identity] false) 0
           (Ornaments.Build_PositionData (Vec3 1 2 3) (Vec3 12 0 0)
              (Vec3 0 0 0) 1));
    reflexivity.
Defined.

(** ** Construction with an unusual count *)

Section FractionalCounts.

Lemma ToInteger_below (q : Q) : (q <= -1)%Q -> (ToInteger q < 0)%Z.
Proof.
  unfold ToInteger, Qle. simpl. intros H.
  assert (HD : (0 < Z.pos (Qden q))%Z) by lia.
  Z.to_euclidean_division_equations. nia.
Qed.

Lemma ToInteger_within (q : Q) :
  (-1 < q)%Q -> (q < 1)%Q -> ToInteger q = 0%Z.
Proof.
  unfold ToInteger, Qlt. simpl. intros H1 H2.
  assert (HD : (0 < Z.pos (Qden q))%Z) by lia.
  Z.to_euclidean_division_equations. nia.
Qed.

(** A [Frac] that holds an integer is treated as the [Fin] of it. *)
Lemma Frac_integer_as_Fin (z : Z) (i : nat) :
  Float32Array_new (Frac (inject_Z z)) = Float32Array_new (Fin z) /\
  js_lt i (Frac (inject_Z z)) = js_lt i (Fin z).
Proof.
  split.
  - unfold Float32Array_new, ToInteger. simpl. rewrite Z.quot_1_r.
    reflexivity.
  - unfold js_lt, Qle_bool. simpl. rewrite !Z.mul_1_r.
    destruct (Z.leb_spec z (Z.of_nat i)), (Z.ltb_spec (Z.of_nat i) z);
      simpl; try reflexivity; lia.
Qed.

Lemma Float32Array_new_below (q : Q) (k : Z) :
  (0 < k)%Z -> (q * inject_Z k <= -1)%Q ->
  Float32Array_new (js_times (Frac q) k) = Throw RangeError.
Proof.
  intros Hk H. simpl.
  pose proof (ToInteger_below _ H) as Hneg.
  apply Z.ltb_lt in Hneg. rewrite Hneg. reflexivity.
Qed.

Lemma Float32Array_new_within (q : Q) (k : Z) :
  (-1 < q * inject_Z k)%Q -> (q * inject_Z k < 1)%Q ->
  Float32Array_new (js_times (Frac q) k) = Normal [].
Proof.
  intros H1 H2. simpl. rewrite (ToInteger_within _ H1 H2). reflexivity.
Qed.

Lemma Float32Array_new_Frac_within (q : Q) :
  (-1 < q)%Q -> (q < 1)%Q -> Float32Array_new (Frac q) = Normal [].
Proof.
  intros H1 H2. simpl. rewrite (ToInteger_within _ H1 H2). reflexivity.
Qed.

Lemma js_lt_Frac_negative (q : Q) : (q < 0)%Q -> js_lt 0 (Frac q) = false.
Proof.
  intros H. simpl.
  assert (Hle : Qle_bool q (inject_Z (Z.of_nat 0)) = true).
  { apply Qle_bool_iff. unfold Qle, Qlt in *. simpl in *. lia. }
  rewrite Hle. reflexivity.
Qed.

(** Scaling a bound on a count by the constant of an allocation. *)
Lemma Qscale_le (q : Q) (a : Z) (b k : positive) :
  (q <= a # b)%Q -> (a * Z.pos k <= - Z.pos b)%Z ->
  (q * inject_Z (Z.pos k) <= -1)%Q.
Proof.
  unfold Qle. simpl. rewrite Pos.mul_1_r. intros H Hk. nia.
Qed.

Lemma Qscale_within (q : Q) (a : Z) (b k : positive) :
  (a # b < q)%Q -> (q < 0)%Q -> (- Z.pos b <= a * Z.pos k)%Z ->
  (-1 < q * inject_Z (Z.pos k))%Q /\ (q * inject_Z (Z.pos k) < 1)%Q.
Proof.
  unfold Qlt. simpl. rewrite Pos.mul_1_r. intros H1 H2 Hk. split; nia.
Qed.

(** A loop whose test fails at once returns what it was given. *)
Lemma foliage_loop_stop (fuel : nat) (count : jsnum) (i : nat)
  (b : Foliage.buffers) (s : rng) :
  js_lt i count = false ->
  Foliage.loop (S fuel) count i b s = (Some b, s).
Proof. intros H. cbn [Foliage.loop]. rewrite H. reflexivity. Qed.

Lemma ornament_loop_stop (fuel : nat) (count : jsnum) (i : nat)
  (items : list Ornaments.PositionData) (s : rng) :
  js_lt i count = false ->
  Ornaments.loop (S fuel) count i items s = (Some items, s).
Proof. intros H. cbn [Ornaments.loop]. rewrite H. reflexivity. Qed.

End FractionalCounts.




(** C9.  A count of 0 is legal in both fields: construction returns
    without error, every buffer, the item list and the matrix store are
    empty, the foliage draws no vertex, and the ornament frame leaves the
    matrix store as it is, for every progress and time. *)
Theorem zero_count_is_empty_field (fuel : nat) (s : rng) :
  Foliage.useMemo (S fuel) (Fin 0) s =
    (Some (Normal (Foliage.Buffers [] [] [])), s) /\
  (forall u normals,
     Foliage.render u normals (Foliage.Buffers [] [] []) = []) /\
  (forall shader elapsed progress,
     Foliage.useFrame (Some shader) elapsed progress =
       Some (Foliage.Uniforms elapsed progress)) /\
  Ornaments.construct (S fuel) (Fin 0) s =
    (Some (Normal ([], Ornaments.Mesh [] false)), s) /\
  (forall mesh t time scaleBase,
     Ornaments.useFrame (Some mesh) t time scaleBase [] =
       Some (Ornaments.Mesh (Ornaments.instanceMatrix mesh) true)).
Proof. repeat split. Qed.

(** ** From the driver to the rendered foliage *)

Section Convergence.

Import Foliage.

(** [n] ticks towards the tree leave [(1 - p) * q^n] of the way, with
    [q = exp (-2.5 * delta)]. *)
Lemma morph_ticks_closed (delta : R) :
  forall n p,
    morph_ticks n p delta = 1 - (1 - p) * exp (- 2.5 * delta) ^ n.
Proof.
  induction n as [| n IH]; intros p; simpl.
  - ring.
  - rewrite IH, morph_tick_eq. simpl. ring.
Qed.

Lemma smoothstep_unit (p : R) :
  0 <= p <= 1 -> GLSL.smoothstep 0 1 p = p * p * (3 - 2 * p).
Proof.
  intros Hp. unfold GLSL.smoothstep, GLSL.clamp.
  replace ((p - 0) / (1 - 0)) with p by field.
  rewrite (Rmax_left p 0) by lra. rewrite (Rmin_left p 1) by lra.
  reflexivity.
Qed.

(** Past 0.8 the shader adds the breathing and no wind. *)
Lemma vertexShader_assembled (time p : R) (v : vertex) :
  0.8 < p <= 1 ->
  vertexShader time p v =
  vadd (GLSL.mix3 (aScatterPos v) (aTreePos v) (p * p * (3 - 2 * p)))
       (vscale (normal v) (breath time v)).
Proof.
  intros Hp. unfold vertexShader.
  rewrite smoothstep_unit by lra.
  destruct (Rlt_dec 0.8 p) as [_ | Hn]; [| lra].
  destruct (Rlt_dec p 0.2) as [Hlt | _]; [lra | reflexivity].
Qed.

Lemma breath_bound (time : R) (v : vertex) : Rabs (breath time v) <= 0.05.
Proof.
  unfold breath. pose proof (SIN_bound (time * 2 + aRandom v * 10)).
  apply Rabs_le. lra.
Qed.

Lemma sqrt74_le_9 : sqrt (5 ^ 2 + 7 ^ 2) <= 9.
Proof. left. apply sqrt_lt_of_sq; lra. Qed.

Lemma Rabs_le_between (x y : R) : Rabs x <= y -> - y <= x <= y.
Proof. unfold Rabs. destruct (Rcase_abs x); lra. Qed.

(** One coordinate: what is left of the way, times the distance. *)
Lemma mix_gap (sc tg nb e : R) :
  GLSL.mix sc tg e + nb - (tg + nb) = (sc - tg) * (1 - e).
Proof. unfold GLSL.mix. ring. Qed.

Lemma coord_gap_bound (sc tg d eps : R) :
  Rabs sc <= 25 -> Rabs tg <= 9 -> 0 <= d <= 1 -> 102 * d <= eps ->
  Rabs ((sc - tg) * (1 - (1 - d) * (1 - d) * (3 - 2 * (1 - d)))) <= eps.
Proof.
  intros Hsc Htg Hd He.
  apply Rabs_le_between in Hsc. apply Rabs_le_between in Htg.
  replace (1 - (1 - d) * (1 - d) * (3 - 2 * (1 - d)))
    with (d * d * (3 - 2 * d)) by ring.
  assert (Hg : 0 <= d * d * (3 - 2 * d) <= 3 * d) by nra.
  apply Rabs_le. split; nra.
Qed.

Lemma vertex_near_tree (time p eps : R) (v : vertex) :
  foliage_sampled v -> 0.8 < p <= 1 -> 102 * (1 - p) <= eps ->
  dist_inf (vertexShader time p v)
           (vadd (aTreePos v) (vscale (normal v) (breath time v))) <= eps.
Proof.
  intros Hv Hp He.
  pose proof (foliage_tree_norm v Hv) as Htn.
  pose proof (foliage_scatter_norm v Hv) as Hsn.
  pose proof sqrt74_le_9 as H9.
  destruct (coord_le_norm (aTreePos v)) as (Tx & Ty & Tz).
  destruct (coord_le_norm (aScatterPos v)) as (Sx & Sy & Sz).
  rewrite vertexShader_assembled by assumption.
  unfold dist_inf, vadd, vscale, GLSL.mix3; simpl.
  rewrite !mix_gap.
  replace p with (1 - (1 - p)) by ring.
  replace (1 - (1 - (1 - p))) with (1 - p) by ring.
  repeat apply Rmax_lub; apply coord_gap_bound; lra.
Qed.

(** The ticks towards the tree from progress 0 get as near to 1 as we
    like, and stay there. *)
Lemma morph_ticks_eventually (delta y : R) :
  0 < delta -> 0 < y ->
  exists N, forall k,
    1 - y < morph_ticks (N + k) 0 delta < 1.
Proof.
  intros Hd Hy.
  pose proof (damp_factor_pos delta Hd) as Hq.
  set (q := exp (- 2.5 * delta)) in *.
  assert (Hq1 : Rabs q < 1) by (apply Rabs_def1; lra).
  destruct (pow_lt_1_zero q Hq1 y Hy) as [N HN].
  exists N. intros k.
  rewrite morph_ticks_closed. fold q.
  assert (Hpos : 0 < q ^ (N + k)) by (apply pow_lt; lra).
  specialize (HN (N + k)%nat ltac:(lia)).
  rewrite Rabs_pos_eq in HN by lra. lra.
Qed.

End Convergence.

(** C1.  From progress 0, ticks in TREE_SHAPE mode with a fixed positive
    delta take the progress above 0.999 after finitely many ticks, for
    good; and for any [eps > 0] they take every vertex of the generated
    foliage, at every time, within [eps] (in each coordinate) of its tree
    position displaced by the breathing offset [normal * breath], whose
    factor [breath] is at most 0.05 in absolute value.  At progress 1 the
    rendered position is that displaced tree position itself. *)
Theorem morph_converges_to_tree
  (delta eps : R) (n fuel : nat) (s : rng) (normals : nat -> vec3)
  (Hd : 0 < delta) (He : 0 < eps) (Hs : rng_ok s) (Hfuel : (n < fuel)%nat) :
  exists N b s',
    Foliage.useMemo fuel (Fin (Z.of_nat n)) s = (Some (Normal b), s') /\
    Foliage.vertex_count b = n /\
    forall k time,
      let p := morph_ticks (N + k) 0 delta in
      0.999 < p < 1 /\
      Forall (fun v =>
                let target :=
                  vadd (Foliage.aTreePos v)
                       (vscale (Foliage.normal v) (Foliage.breath time v)) in
                dist_inf (Foliage.vertexShader time p v) target <= eps /\
                Rabs (Foliage.breath time v) <= 0.05 /\
                Foliage.vertexShader time 1 v = target)
        (Foliage.vertices normals b).
Proof.
  assert (Hy : 0 < Rmin 0.001 (eps / 102)).
  { apply Rmin_glb_lt; lra. }
  destruct (morph_ticks_eventually delta _ Hd Hy) as [N HN].
  destruct (foliage_field n fuel s normals Hs Hfuel)
    as (b & s' & Hu & Hvc & Hall).
  exists N, b, s'. split; [assumption |]. split; [assumption |].
  intros k time. cbv zeta. specialize (HN k).
  pose proof (Rmin_l 0.001 (eps / 102)) as Hl.
  pose proof (Rmin_r 0.001 (eps / 102)) as Hr.
  split; [lra |].
  apply (Forall_weaken foliage_sampled); [| assumption].
  intros v Hv. split; [| split].
  - apply vertex_near_tree; [assumption | lra | lra].
  - apply breath_bound.
  - rewrite vertexShader_assembled by lra.
    unfold vadd, vscale, GLSL.mix3, GLSL.mix; simpl.
    destruct (Foliage.aTreePos v) as [x y z]; simpl.
    f_equal; f_equal; ring.
Qed.

Lemma morph_converges_to_tree_witness :
  exists N b s',
    Foliage.useMemo 3 (Fin 2) (fun _ => 1 / 2) = (Some (Normal b), s') /\
    Foliage.vertex_count b = 2%nat /\
    forall k time,
      let p := morph_ticks (N + k) 0 (1 / 60) in
      0.999 < p < 1 /\
      Forall (fun v =>
                let target :=
                  vadd (Foliage.aTreePos v)
                       (vscale (Foliage.normal v) (Foliage.breath time v)) in
                dist_inf (Foliage.vertexShader time p v) target <= 1 / 1000 /\
                Rabs (Foliage.breath time v) <= 0.05 /\
                Foliage.vertexShader time 1 v = target)
        (Foliage.vertices (fun _ => Vec3 0 1 0) b).
Proof.
  apply (morph_converges_to_tree (1 / 60) (1 / 1000) 2 3 (fun _ => 1 / 2)
           (fun _ => Vec3 0 1 0)).
  - lra.
  - lra.
  - intros k. lra.
  - lia.
Defined.

(** ** More on the morph driver *)

Section DriverFlow.

Lemma morph_tick_compose (p : R) (mode : TreeMode) (d1 d2 : R) :
  morph_tick (morph_tick p mode d1) mode d2 = morph_tick p mode (d1 + d2).
Proof.
  rewrite !morph_tick_eq.
  replace (- 2.5 * (d1 + d2)) with (- 2.5 * d1 + - 2.5 * d2) by ring.
  rewrite exp_plus. ring.
Qed.

Lemma morph_tick_zero (p : R) (mode : TreeMode) : morph_tick p mode 0 = p.
Proof.
  rewrite morph_tick_eq. replace (- 2.5 * 0) with 0 by ring.
  rewrite exp_0. ring.
Qed.

(** What is left of the way after a tick. *)
Lemma morph_tick_gap (p : R) (mode : TreeMode) (delta : R) :
  morph_tick p mode delta - mode_target mode =
  (p - mode_target mode) * exp (- 2.5 * delta).
Proof. rewrite morph_tick_eq. ring. Qed.

Lemma morph_run_steady_gap (mode : TreeMode) (delta : R) :
  forall n p,
    morph_run p (steady mode delta n) - mode_target mode =
    (p - mode_target mode) * exp (- 2.5 * delta) ^ n.
Proof.
  induction n as [| n IH]; intros p; simpl.
  - ring.
  - unfold steady in IH. rewrite IH, morph_tick_gap. ring.
Qed.

Lemma damp_factor_le (delta : R) : 1 - exp (- 2.5 * delta) <= 2.5 * delta.
Proof. pose proof (exp_ineq1_le (- 2.5 * delta)). lra. Qed.

End DriverFlow.

(** X1.  A run of ticks in one mode is one tick of the summed deltas, and a
    tick of delta 0 changes nothing: the progress after a run depends on
    the elapsed time only, not on how it is cut into frames. *)
Theorem morph_run_is_one_tick (mode : TreeMode) (deltas : list R) (p : R) :
  morph_run p (map (fun d => (mode, d)) deltas) =
    morph_tick p mode (total_time deltas) /\
  morph_tick p mode 0 = p.
Proof.
  split; [| apply morph_tick_zero].
  revert p. induction deltas as [| d rest IH]; intros p; simpl.
  - symmetry. apply morph_tick_zero.
  - rewrite IH. apply morph_tick_compose.
Qed.

(** X2.  With the progress in [0, 1] and a delta that is not negative, one
    tick moves the progress by at most [2.5 * delta], and by no more than
    its distance to the target, in either mode: a change of mode causes no
    jump. *)
Theorem morph_tick_step_bound
  (p : R) (mode : TreeMode) (delta : R)
  (Hp : 0 <= p <= 1) (Hd : 0 <= delta) :
  Rabs (morph_tick p mode delta - p) <= 2.5 * delta /\
  Rabs (morph_tick p mode delta - p) <= Rabs (mode_target mode - p).
Proof.
  rewrite morph_tick_eq.
  pose proof (damp_factor_nonneg delta Hd) as Hk.
  pose proof (damp_factor_le delta) as Hle.
  set (k := 1 - exp (- 2.5 * delta)) in *.
  replace (p + (mode_target mode - p) * k - p)
    with ((mode_target mode - p) * k) by ring.
  rewrite Rabs_mult, (Rabs_pos_eq k) by lra.
  pose proof (Rabs_pos (mode_target mode - p)) as Ha.
  assert (Hb : Rabs (mode_target mode - p) <= 1).
  { apply Rabs_le. destruct mode; simpl; lra. }
  split; nra.
Qed.

Lemma morph_tick_step_bound_witness :
  Rabs (morph_tick (1 / 2) SCATTERED (1 / 60) - 1 / 2) <= 2.5 * (1 / 60) /\
  Rabs (morph_tick (1 / 2) SCATTERED (1 / 60) - 1 / 2) <=
    Rabs (mode_target SCATTERED - 1 / 2).
Proof.
  apply (morph_tick_step_bound (1 / 2) SCATTERED (1 / 60)); lra.
Defined.

(** X3.  From any progress and in either mode, ticks with one positive
    delta bring the progress within any [eps > 0] of the target after
    finitely many ticks, and keep it there. *)
Theorem morph_converges_either_mode
  (p : R) (mode : TreeMode) (delta eps : R)
  (Hd : 0 < delta) (He : 0 < eps) :
  exists N, forall k,
    Rabs (morph_run p (steady mode delta (N + k)) - mode_target mode) < eps.
Proof.
  pose proof (damp_factor_pos delta Hd) as Hq.
  set (q := exp (- 2.5 * delta)) in *.
  set (g := Rabs (p - mode_target mode)).
  assert (Hg : 0 <= g) by apply Rabs_pos.
  assert (Hq1 : Rabs q < 1) by (apply Rabs_def1; lra).
  assert (Hy : 0 < eps / (g + 1)) by (apply Rdiv_lt_0_compat; lra).
  destruct (pow_lt_1_zero q Hq1 _ Hy) as [N HN].
  exists N. intros k.
  rewrite morph_run_steady_gap. fold q.
  rewrite Rabs_mult. fold g.
  specialize (HN (N + k)%nat ltac:(lia)).
  pose proof (Rabs_pos (q ^ (N + k))) as Hpos.
  assert (Hmul : eps / (g + 1) * (g + 1) = eps) by (field; lra).
  nra.
Qed.

Lemma morph_converges_either_mode_witness :
  exists N, forall k,
    Rabs (morph_run 1 (steady SCATTERED (1 / 60) (N + k))
          - mode_target SCATTERED) < 1 / 1000.
Proof.
  apply (morph_converges_either_mode 1 SCATTERED (1 / 60) (1 / 1000)); lra.
Defined.

(** ** The mode toggle *)

Section Toggle.

Lemma toggleMode_twice_mode (st : App.state) :
  App.mode (App.toggleMode (App.toggleMode st)) = App.mode st.
Proof. destruct st as [[|] a]; reflexivity. Qed.

Lemma toggleMode_audio (st : App.state) :
  App.audioStarted (App.toggleMode st) = true.
Proof. destruct st as [m [|]]; reflexivity. Qed.

End Toggle.

(** X4.  After [n] clicks the mode is the starting mode when [n] is even
    and the other mode when [n] is odd; the audio flag is set by the first
    click and never cleared.  From the initial state the target of the
    driver is therefore 1 exactly after an odd number of clicks. *)
Theorem clicks_parity (n : nat) (st : App.state) :
  App.mode (App.clicks n st) =
    (if Nat.even n then App.mode st else App.mode (App.toggleMode st)) /\
  App.audioStarted (App.clicks n st) =
    (if (n =? 0)%nat then App.audioStarted st else true) /\
  mode_target (App.mode (App.clicks n App.initial)) =
    (if Nat.even n then 0 else 1).
Proof.
  assert (Hmode : forall k s,
             App.mode (App.clicks k s) =
             if Nat.even k then App.mode s
             else App.mode (App.toggleMode s)).
  { induction k as [| k IH]; intros s; [reflexivity |].
    simpl App.clicks. rewrite IH, toggleMode_twice_mode.
    rewrite Nat.even_succ, <- Nat.negb_even.
    destruct (Nat.even k); reflexivity. }
  assert (Haudio : forall k s,
             App.audioStarted s = true ->
             App.audioStarted (App.clicks k s) = true).
  { induction k as [| k IH]; intros s Hs; [assumption |].
    simpl. apply IH. apply toggleMode_audio. }
  split; [apply Hmode |]. split.
  - destruct n as [| n]; [reflexivity |].
    simpl. apply Haudio, toggleMode_audio.
  - rewrite Hmode. destruct (Nat.even n); reflexivity.
Qed.

(** ** The star *)

Section Star.

Lemma norm_xy_polar (a r : R) : 0 <= r -> norm_xy (sin a * r, cos a * r) = r.
Proof.
  intros Hr. unfold norm_xy; simpl.
  apply sqrt_sq_nonneg; [assumption |].
  pose proof (sin_cos_sq a) as Ha.
  transitivity (r * r * (sin a * sin a + cos a * cos a));
    [ring | rewrite Ha; ring].
Qed.

Lemma shape_point_norm (outer inner step : R) (k : nat) :
  0 <= outer -> 0 <= inner ->
  norm_xy (TopStar.shape_point outer inner step k) =
  if (k mod 2 =? 0)%nat then outer else inner.
Proof.
  intros Ho Hi. unfold TopStar.shape_point.
  destruct (k mod 2 =? 0)%nat; apply norm_xy_polar; assumption.
Qed.

Lemma indexed_from_map_seq {A : Type} (f : nat -> A) (m : nat) :
  forall a, indexed_from a (map f (seq a m)) =
            map (fun k => (k, f k)) (seq a m).
Proof.
  induction m as [| m IH]; intros a; simpl; [reflexivity |].
  rewrite IH. reflexivity.
Qed.

Lemma shape_point_first (outer inner step : R) :
  TopStar.shape_point outer inner step 0 = (0, outer).
Proof.
  unfold TopStar.shape_point. simpl.
  rewrite Rmult_0_l, sin_0, cos_0. f_equal; ring.
Qed.

Lemma star_radial (t time : R) :
  t <= 1 ->
  radial (Vec3 (MathUtils.lerp (sin (time * 0.5) * 5) 0 t) 0
               (MathUtils.lerp (cos (time * 0.5) * 5) 0 t)) = 5 * (1 - t).
Proof.
  intros Ht. unfold radial, MathUtils.lerp; simpl.
  apply sqrt_sq_nonneg; [lra |].
  pose proof (sin_cos_sq (time * 0.5)) as Ha.
  transitivity
    (25 * (1 - t) * (1 - t) *
     (sin (time * 0.5) * sin (time * 0.5) + cos (time * 0.5) * cos (time * 0.5)));
    [ring | rewrite Ha; ring].
Qed.

End Star.

(** X5.  For a progress [t] in [0, 1] the star is placed at horizontal
    distance exactly [5 * (1 - t)] from the trunk axis and at a height
    between 7.6 and 22; at [t = 1] it sits at [(0, 7.6, 0)] at every
    time. *)
Theorem top_star_position
  (g : TopStar.group) (t time : R) (Ht : 0 <= t <= 1) :
  exists g',
    TopStar.useFrame (Some g) t time = Some g' /\
    radial (TopStar.g_position g') = 5 * (1 - t) /\
    7.6 <= vy (TopStar.g_position g') <= 22 /\
    option_map TopStar.g_position (TopStar.useFrame (Some g) 1 time) =
      Some (Vec3 0 7.6 0).
Proof.
  eexists. split; [reflexivity |]. simpl.
  pose proof (SIN_bound time) as Hs.
  split; [| split].
  - rewrite <- (star_radial t time) by lra. reflexivity.
  - unfold MathUtils.lerp. nra.
  - unfold MathUtils.lerp. do 2 f_equal; ring.
Qed.

Lemma top_star_position_witness :
  exists g',
    TopStar.useFrame
      (Some (TopStar.Group (Vec3 0 0 0) (Vec3 0 0 0) (Vec3 1 1 1)))
      (1 / 4) 3 = Some g' /\
    radial (TopStar.g_position g') = 5 * (1 - 1 / 4) /\
    7.6 <= vy (TopStar.g_position g') <= 22 /\
    option_map TopStar.g_position
      (TopStar.useFrame
         (Some (TopStar.Group (Vec3 0 0 0) (Vec3 0 0 0) (Vec3 1 1 1))) 1 3) =
      Some (Vec3 0 7.6 0).
Proof.
  apply (top_star_position
           (TopStar.Group (Vec3 0 0 0) (Vec3 0 0 0) (Vec3 1 1 1)) (1 / 4) 3).
  lra.
Defined.

(** X6.  For a progress in [0, 1] the star is scaled uniformly by a factor
    between 0.475 and 1.05, so it never collapses or flips; its tilt about
    Z stays within 0.05 rad, its rotation about Y is [0.4 * time] and its
    rotation about X keeps the value it had.  Without a mounted group the
    frame does nothing. *)
Theorem top_star_scale_and_rotation
  (g : TopStar.group) (t time : R) (Ht : 0 <= t <= 1) :
  (exists g' s,
     TopStar.useFrame (Some g) t time = Some g' /\
     TopStar.g_scale g' = Vec3 s s s /\
     0.475 <= s <= 1.05 /\
     vx (TopStar.g_rotation g') = vx (TopStar.g_rotation g) /\
     vy (TopStar.g_rotation g') = 0.4 * time /\
     Rabs (vz (TopStar.g_rotation g')) <= 0.05) /\
  TopStar.useFrame None t time = None.
Proof.
  split; [| reflexivity].
  eexists. eexists. split; [reflexivity |]. simpl.
  pose proof (SIN_bound (time * 2.5)) as Hs.
  pose proof (SIN_bound (time * 0.5)) as Hz.
  split; [reflexivity |].
  split; [unfold MathUtils.lerp; nra |].
  split; [reflexivity |]. split; [ring |].
  apply Rabs_le. lra.
Qed.

Lemma top_star_scale_and_rotation_witness :
  (exists g' s,
     TopStar.useFrame
       (Some (TopStar.Group (Vec3 0 0 0) (Vec3 1 2 3) (Vec3 1 1 1)))
       (1 / 2) 10 = Some g' /\
     TopStar.g_scale g' = Vec3 s s s /\
     0.475 <= s <= 1.05 /\
     vx (TopStar.g_rotation g') = 1 /\
     vy (TopStar.g_rotation g') = 0.4 * 10 /\
     Rabs (vz (TopStar.g_rotation g')) <= 0.05) /\
  TopStar.useFrame None (1 / 2) 10 = None.
Proof.
  apply (top_star_scale_and_rotation
           (TopStar.Group (Vec3 0 0 0) (Vec3 1 2 3) (Vec3 1 1 1)) (1 / 2) 10).
  lra.
Defined.

(** X7.  The outline of a star of [points] points has [2 * points]
    corners; corner [k] is at angle [k * PI / points] and at distance
    [outerRadius] from the centre when [k] is even, [innerRadius] when [k]
    is odd. *)
Theorem star_outline
  (points : nat) (outer inner : R)
  (Hp : (0 < points)%nat) (Ho : 0 <= outer) (Hi : 0 <= inner) :
  length (TopStar.starShape points outer inner) = (2 * points)%nat /\
  Forall (fun p =>
            snd p = TopStar.shape_point outer inner (PI / INR points) (fst p)
            /\ norm_xy (snd p) =
               (if (fst p mod 2 =? 0)%nat then outer else inner))
    (indexed_from 0 (TopStar.starShape points outer inner)).
Proof.
  unfold TopStar.starShape. cbv zeta. split.
  - simpl length. rewrite length_map, length_seq. lia.
  - simpl indexed_from. constructor.
    + simpl fst; simpl snd. rewrite shape_point_first. split; [reflexivity |].
      unfold norm_xy; simpl. apply sqrt_sq_nonneg; [assumption | ring].
    + rewrite indexed_from_map_seq. apply Forall_forall.
      intros p Hin. apply list_elem_of_In in Hin.
      apply in_map_iff in Hin as (k & <- & _). simpl.
      split; [reflexivity | apply shape_point_norm; assumption].
Qed.

Lemma star_outline_witness :
  length TopStar.starGeometry_shape = 10%nat /\
  Forall (fun p =>
            snd p = TopStar.shape_point 1.4 0.6 (PI / INR 5) (fst p)
            /\ norm_xy (snd p) = (if (fst p mod 2 =? 0)%nat then 1.4 else 0.6))
    (indexed_from 0 TopStar.starGeometry_shape).
Proof.
  apply (star_outline 5 1.4 0.6); [lia | lra | lra].
Defined.

(** ** The generated elements, draw by draw *)

Section Draws.

Variable normals : nat -> vec3.

Lemma foliage_particle_ext (d d' : rng) (nrm : vec3) :
  (forall k, d k = d' k) -> foliage_particle d nrm = foliage_particle d' nrm.
Proof. intros H. unfold foliage_particle. rewrite !H. reflexivity. Qed.

Lemma ornament_body_ext (i : nat) (d d' : rng) :
  (forall k, d k = d' k) ->
  fst (Ornaments.body i d) = fst (Ornaments.body i d').
Proof.
  intros H. unfold Ornaments.body, bind, Math_random, ret. simpl.
  rewrite !H. reflexivity.
Qed.

(** One pass, without any assumption on the draws. *)
Lemma body_vertices (i : nat) (b b1 : Foliage.buffers) (s s1 : rng) :
  Foliage.body i b s = (b1, s1) ->
  s1 = (fun n => s (7 + n)%nat) /\
  length (Foliage.positions b1) = length (Foliage.positions b) /\
  length (Foliage.scatterPositions b1) = length (Foliage.scatterPositions b) /\
  length (Foliage.randoms b1) = length (Foliage.randoms b) /\
  (forall j, j <> i ->
             Foliage.vertex_at normals b1 j = Foliage.vertex_at normals b j) /\
  ((i * 3 + 2 < length (Foliage.positions b))%nat ->
   (i * 3 + 2 < length (Foliage.scatterPositions b))%nat ->
   (i < length (Foliage.randoms b))%nat ->
   Foliage.vertex_at normals b1 i = foliage_particle s (normals i)).
Proof.
  intros Hb. rewrite body_eq in Hb. injection Hb as <- <-. simpl.
  rewrite !length_write3, length_insert.
  split; [reflexivity |]. do 3 (split; [reflexivity |]). split.
  - intros j Hj. unfold Foliage.vertex_at; simpl.
    rewrite !fetch3_write3_ne by assumption.
    rewrite nth_insert_ne by assumption. reflexivity.
  - intros H1 H2 H3. unfold Foliage.vertex_at, foliage_particle; simpl.
    rewrite !fetch3_write3_eq by assumption.
    rewrite nth_insert_eq by assumption. reflexivity.
Qed.

Lemma foliage_loop_exact (count : jsnum) :
  whole_count count ->
  forall fuel i b s b' s',
    Foliage.loop fuel count i b s = (Some b', s') ->
    length (Foliage.positions b) = (count_len count * 3)%nat ->
    length (Foliage.scatterPositions b) = (count_len count * 3)%nat ->
    length (Foliage.randoms b) = count_len count ->
    (i <= count_len count)%nat ->
    (forall j, (i <= j < count_len count)%nat ->
               Foliage.vertex_at normals b' j =
               foliage_particle (drop_draws (7 * (j - i)) s) (normals j)) /\
    (forall j, (j < i)%nat ->
               Foliage.vertex_at normals b' j = Foliage.vertex_at normals b j)
    /\
    (forall k, s' k = s (7 * (count_len count - i) + k)%nat) /\
    length (Foliage.positions b') = (count_len count * 3)%nat /\
    length (Foliage.scatterPositions b') = (count_len count * 3)%nat /\
    length (Foliage.randoms b') = count_len count.
Proof.
  intros Hinf. set (n := count_len count).
  induction fuel as [| fuel IH]; intros i b s b' s' Hl Lp Ls Lr Hi.
  - discriminate.
  - simpl in Hl. destruct (js_lt i count) eqn:Hlt.
    + unfold bind in Hl.
      destruct (Foliage.body i b s) as [b1 s1] eqn:Hbody.
      pose proof (js_lt_true i count Hlt Hinf) as Hin. fold n in Hin.
      destruct (body_vertices i b b1 s s1 Hbody)
        as (Hs1 & Lp1 & Ls1 & Lr1 & Hother & Hnew).
      destruct (IH (S i) b1 s1 b' s' Hl) as (Hge & Hlt' & Hs' & Hlens);
        try lia.
      split; [| split; [| split]].
      * intros j Hj. destruct (Nat.eq_dec j i) as [-> | Hne].
        -- rewrite Hlt' by lia. rewrite Hnew by lia.
           apply foliage_particle_ext. intros k. unfold drop_draws.
           f_equal. lia.
        -- rewrite Hge by lia.
           apply foliage_particle_ext. intros k. unfold drop_draws.
           rewrite Hs1. f_equal. lia.
      * intros j Hj. rewrite Hlt' by lia. apply Hother. lia.
      * intros k. rewrite Hs', Hs1. f_equal. lia.
      * assumption.
    + unfold ret in Hl. injection Hl as <- <-.
      pose proof (js_lt_false i count Hlt Hinf) as Hin. fold n in Hin.
      split; [| split; [| split]].
      * intros j Hj. lia.
      * reflexivity.
      * intros k. f_equal. lia.
      * repeat split; assumption.
Qed.

Lemma ornament_loop_exact (count : jsnum) :
  whole_count count ->
  forall fuel i items s items' s',
    Ornaments.loop fuel count i items s = (Some items', s') ->
    (i <= count_len count)%nat ->
    items' =
      items ++ map (fun j => fst (Ornaments.body j (drop_draws (7 * (j - i)) s)))
                 (seq i (count_len count - i)) /\
    (forall k, s' k = s (7 * (count_len count - i) + k)%nat).
Proof.
  intros Hinf. set (n := count_len count).
  induction fuel as [| fuel IH]; intros i items s items' s' Hl Hi.
  - discriminate.
  - simpl in Hl. destruct (js_lt i count) eqn:Hlt.
    + unfold bind in Hl.
      destruct (Ornaments.body i s) as [item s1] eqn:Hbody.
      pose proof (js_lt_true i count Hlt Hinf) as Hin. fold n in Hin.
      assert (Hs1 : s1 = fun k => s (7 + k)%nat).
      { unfold Ornaments.body, bind, Math_random, ret in Hbody.
        injection Hbody as _ <-. reflexivity. }
      destruct (IH (S i) (items ++ [item]) s1 items' s' Hl) as [Hit Hs'];
        [lia |].
      split.
      * rewrite Hit, <- app_assoc. f_equal.
        replace (n - i)%nat with (S (n - S i)) by lia.
        simpl. f_equal.
        -- replace item with (fst (Ornaments.body i s))
             by (rewrite Hbody; reflexivity).
           apply ornament_body_ext. intros k. unfold drop_draws.
           f_equal. lia.
        -- apply map_ext_in. intros j Hj. apply in_seq in Hj.
           apply ornament_body_ext. intros k. unfold drop_draws.
           rewrite Hs1. f_equal. lia.
      * intros k. rewrite Hs', Hs1. f_equal. lia.
    + unfold ret in Hl. injection Hl as <- <-.
      pose proof (js_lt_false i count Hlt Hinf) as Hin. fold n in Hin.
      replace (n - i)%nat with 0%nat by lia. simpl.
      split; [rewrite app_nil_r; reflexivity |].
      intros k. reflexivity.
Qed.

End Draws.

(** X8.  A foliage field of [n] particles is built from exactly [7 * n]
    draws: the buffers hold [3 * n], [3 * n] and [n] numbers, vertex [i]
    read back from them is the vertex computed from the draws
    [7 * i, ..., 7 * i + 6], and the draws left over start at [7 * n].  So
    particle [i] does not depend on the count. *)
Theorem foliage_particles_from_draws
  (n fuel : nat) (s : rng) (normals : nat -> vec3)
  (Hfuel : (n < fuel)%nat) :
  exists b s',
    Foliage.useMemo fuel (Fin (Z.of_nat n)) s = (Some (Normal b), s') /\
    length (Foliage.positions b) = (n * 3)%nat /\
    length (Foliage.scatterPositions b) = (n * 3)%nat /\
    length (Foliage.randoms b) = n /\
    Foliage.vertices normals b =
      map (fun i => foliage_particle (drop_draws (7 * i) s) (normals i))
          (seq 0 n) /\
    (forall k, s' k = s (7 * n + k)%nat).
Proof.
  destruct (useMemo_returns n fuel s Hfuel) as (b & s' & Hu).
  exists b, s'. split; [assumption |].
  unfold Foliage.useMemo in Hu.
  destruct (Float32Array_new (js_times (Fin (Z.of_nat n)) 3))
    as [pos | e] eqn:Hpos; [| discriminate].
  destruct (Float32Array_new (Fin (Z.of_nat n))) as [rnd | e] eqn:Hrnd;
    [| discriminate].
  unfold bind, ret in Hu.
  destruct (Foliage.loop fuel (Fin (Z.of_nat n)) 0 (Foliage.Buffers pos pos rnd) s)
    as [[b1 |] s1] eqn:Hl; simpl in Hu; [| discriminate].
  injection Hu as <- <-.
  destruct (Float32Array_new_Normal _ _ Hrnd) as (Lr & _ & _ & _ & Hz).
  destruct (Float32Array_new_Normal _ _ Hpos) as (Lp & _).
  change 3%Z with (Z.of_nat 3) in Lp.
  rewrite (count_len_times (Fin (Z.of_nat n)) 3 I Hz) in Lp.
  assert (Hinf : whole_count (Fin (Z.of_nat n))) by exact I.
  destruct (foliage_loop_exact normals _ Hinf fuel 0 _ s b1 s1 Hl Lp Lp Lr)
    as (Hge & _ & Hs' & Lp1 & Ls1 & Lr1); [lia |].
  simpl count_len in *. rewrite Nat2Z.id in *.
  repeat split; try assumption.
  - unfold Foliage.vertices, Foliage.vertex_count. rewrite Lp1.
    rewrite Nat.div_mul by lia.
    apply map_ext_in. intros i Hi. apply in_seq in Hi.
    rewrite Hge by lia.
    apply foliage_particle_ext. intros k. unfold drop_draws. f_equal. lia.
  - intros k. rewrite Hs'. f_equal. lia.
Qed.

Lemma foliage_particles_from_draws_witness :
  exists b s',
    Foliage.useMemo 3 (Fin 2) (fun k => / (2 + INR k)) =
      (Some (Normal b), s') /\
    length (Foliage.positions b) = 6%nat /\
    length (Foliage.scatterPositions b) = 6%nat /\
    length (Foliage.randoms b) = 2%nat /\
    Foliage.vertices (fun _ => Vec3 0 0 0) b =
      map (fun i => foliage_particle
                      (drop_draws (7 * i) (fun k => / (2 + INR k)))
                      (Vec3 0 0 0))
          (seq 0 2) /\
    (forall k, s' k = / (2 + INR (7 * 2 + k))).
Proof.
  apply (foliage_particles_from_draws 2 3 (fun k => / (2 + INR k))
           (fun _ => Vec3 0 0 0)).
  lia.
Defined.

(** X9.  An ornament list of [n] items is built from exactly [7 * n]
    draws: item [i] is what one pass of the loop at index [i] makes of the
    draws [7 * i, ..., 7 * i + 6], and the draws left over start at
    [7 * n]. *)
Theorem ornament_items_from_draws
  (n fuel : nat) (s : rng) (Hfuel : (n < fuel)%nat) :
  exists data s',
    Ornaments.useMemo fuel (Fin (Z.of_nat n)) s = (Some data, s') /\
    data = map (fun i => fst (Ornaments.body i (drop_draws (7 * i) s)))
               (seq 0 n) /\
    length data = n /\
    (forall k, s' k = s (7 * n + k)%nat).
Proof.
  destruct (ornament_useMemo_returns n fuel s Hfuel) as (data & s' & Hu).
  exists data, s'. split; [assumption |].
  unfold Ornaments.useMemo in Hu.
  assert (Hinf : whole_count (Fin (Z.of_nat n))) by exact I.
  destruct (ornament_loop_exact _ Hinf fuel 0 [] s data s' Hu) as [Hd Hs'];
    [lia |].
  simpl count_len in *. rewrite Nat2Z.id in *.
  rewrite Nat.sub_0_r in *. simpl in Hd.
  assert (Hmap : data =
                 map (fun i => fst (Ornaments.body i (drop_draws (7 * i) s)))
                     (seq 0 n)).
  { rewrite Hd. apply map_ext_in. intros i Hi.
    apply ornament_body_ext. intros k. unfold drop_draws. f_equal. lia. }
  split; [assumption |]. split.
  - rewrite Hmap, length_map, length_seq. reflexivity.
  - assumption.
Qed.

Lemma ornament_items_from_draws_witness :
  exists data s',
    Ornaments.useMemo 4 (Fin 3) (fun k => / (2 + INR k)) = (Some data, s') /\
    data = map (fun i => fst (Ornaments.body i
                                (drop_draws (7 * i) (fun k => / (2 + INR k)))))
               (seq 0 3) /\
    length data = 3%nat /\
    (forall k, s' k = / (2 + INR (7 * 3 + k))).
Proof.
  apply (ornament_items_from_draws 3 4 (fun k => / (2 + INR k))). lia.
Defined.

(** ** More on the frame of the ornaments *)

Section OrnamentsStore.

Import Ornaments.

Variables t time scaleBase : R.

(** A store as long as the data is overwritten from the running index
    on. *)
Lemma forEach_all (data : list PositionData) :
  forall k m,
    length m = (k + length data)%nat ->
    forEach t time scaleBase data k m =
    take k m ++
      map (fun p => instance_transform t time scaleBase (snd p) (fst p))
          (indexed_from k data).
Proof.
  induction data as [| x rest IH]; intros k m Hlen; simpl.
  - rewrite app_nil_r. symmetry. apply take_ge. simpl in Hlen. lia.
  - simpl in Hlen. rewrite IH by (rewrite length_insert; lia).
    rewrite (take_S_r _ k (instance_transform t time scaleBase x k))
      by (apply list_lookup_insert_eq; lia).
    rewrite take_insert_ge by lia.
    rewrite <- app_assoc. reflexivity.
Qed.

Lemma easedT_unit : 0 <= t <= 1 -> 0 <= easedT t <= 1.
Proof.
  intros Ht. unfold easedT. simpl.
  assert (Hsq : 0 <= (1 - t) * (1 - t) <= 1) by nra.
  nra.
Qed.

Lemma lerp_bound (a b e M : R) :
  Rabs a <= M -> Rabs b <= M -> 0 <= e <= 1 ->
  Rabs (MathUtils.lerp a b e) <= M.
Proof.
  intros Ha Hb He. apply Rabs_le_between in Ha. apply Rabs_le_between in Hb.
  unfold MathUtils.lerp. apply Rabs_le. split; nra.
Qed.

Lemma jitter_bound (wave : R) :
  0 <= t <= 1 -> -1 <= wave <= 1 -> Rabs (wave * ((1 - t) * 0.5)) <= 0.5.
Proof. intros Ht Hw. apply Rabs_le. split; nra. Qed.

Lemma sampled_coords (i : nat) (item : PositionData) :
  ornament_sampled i item ->
  (Rabs (vx (scatter item)) <= 24 /\ Rabs (vy (scatter item)) <= 24 /\
   Rabs (vz (scatter item)) <= 24) /\
  (Rabs (vx (tree item)) <= 24 /\ Rabs (vy (tree item)) <= 24 /\
   Rabs (vz (tree item)) <= 24).
Proof.
  intros Hv.
  pose proof (ornament_scatter_norm i item Hv) as Hs.
  pose proof (ornament_tree_norm i item Hv) as Ht.
  assert (H9 : sqrt (4.8 ^ 2 + 6.5 ^ 2) <= 24)
    by (left; apply sqrt_lt_of_sq; lra).
  destruct (coord_le_norm (scatter item)) as (S1 & S2 & S3).
  destruct (coord_le_norm (tree item)) as (T1 & T2 & T3).
  repeat split; lra.
Qed.

Lemma sampled_seeds (i : nat) (item : PositionData) :
  ornament_sampled i item ->
  0 <= vx (rotation item) < PI /\ 0 <= vy (rotation item) < PI /\
  vz (rotation item) = 0 /\ 0.5 <= scale item < 1.
Proof.
  intros (u1 & u2 & u3 & u4 & u5 & u6 & u7 & Hu & ->). simpl.
  destruct Hu as (_ & _ & _ & _ & Hu5 & Hu6 & Hu7).
  unfold unit_draw in *. pose proof PI_gt_3.
  repeat split; nra.
Qed.

End OrnamentsStore.

Section FrameOverField.

Lemma ornament_items_exist (n fuel : nat) (s : rng) :
  (n < fuel)%nat ->
  exists data s',
    Ornaments.useMemo fuel (Fin (Z.of_nat n)) s = (Some data, s') /\
    length data = n.
Proof.
  intros Hfuel.
  destruct (ornament_useMemo_returns n fuel s Hfuel) as (data & s' & Hu).
  exists data, s'. split; [assumption |].
  unfold Ornaments.useMemo in Hu.
  assert (Hinf : whole_count (Fin (Z.of_nat n))) by exact I.
  destruct (ornament_loop_exact _ Hinf fuel 0 [] s data s' Hu) as [Hd _];
    [simpl; lia |].
  rewrite Hd. simpl. rewrite length_map, length_seq, Nat2Z.id. lia.
Qed.

Lemma Forall_map_intro {A B : Type} (f : A -> B) (P : B -> Prop)
  (l : list A) :
  Forall (fun x => P (f x)) l -> Forall P (map f l).
Proof. intros H. induction H; simpl; constructor; auto. Qed.

(** Every transform of a frame over a generated item list satisfies what
    follows from its item being sampled. *)
Lemma frame_transforms_Forall (t time scaleBase : R)
  (P : Ornaments.transform -> Prop) (data : list Ornaments.PositionData) :
  (forall i item,
     ornament_sampled i item ->
     P (Ornaments.instance_transform t time scaleBase item i)) ->
  all_sampled data ->
  Forall P (frame_transforms t time scaleBase data).
Proof.
  intros HP Hall. unfold frame_transforms. apply Forall_map_intro.
  apply (Forall_weaken (fun p => ornament_sampled (fst p) (snd p))).
  - intros [i item] Hv. simpl in *. apply HP. assumption.
  - apply indexed_from_sampled. intros j item Hj. exact (Hall j item Hj).
Qed.

Lemma InstancedMesh_new_nat (n : nat) :
  Ornaments.InstancedMesh_new (Fin (Z.of_nat n)) =
  Normal (Ornaments.Mesh (replicate n Ornaments.identity) false).
Proof.
  unfold Ornaments.InstancedMesh_new, Float32Array_new, js_times.
  destruct (Z.ltb_spec (Z.of_nat n * 16) 0) as [Hneg | _]; [lia |].
  rewrite length_replicate.
  replace (Z.to_nat (Z.of_nat n * 16)) with (n * 16)%nat by lia.
  rewrite Nat.div_mul by lia. reflexivity.
Qed.

End FrameOverField.

(** X10.  An ornament field of [n] instances is constructed with an item
    list and a matrix store of the same length [n]; the store starts as
    [n] identities with the update flag down, and any frame after the
    construction writes the transform of every item into it and raises the
    flag. *)
Theorem ornaments_construct_then_frame
  (n fuel : nat) (s : rng) (Hfuel : (n < fuel)%nat) :
  exists data mesh s',
    Ornaments.construct fuel (Fin (Z.of_nat n)) s =
      (Some (Normal (data, mesh)), s') /\
    length data = n /\
    mesh = Ornaments.Mesh (replicate n Ornaments.identity) false /\
    forall t time scaleBase,
      Ornaments.useFrame (Some mesh) t time scaleBase data =
      Some (Ornaments.Mesh (frame_transforms t time scaleBase data) true).
Proof.
  destruct (ornament_items_exist n fuel s Hfuel) as (data & s' & Hu & Hlen).
  exists data, (Ornaments.Mesh (replicate n Ornaments.identity) false), s'.
  split; [| split; [assumption | split; [reflexivity |]]].
  - unfold Ornaments.construct, bind, ret. rewrite Hu.
    rewrite InstancedMesh_new_nat. reflexivity.
  - intros t time scaleBase. unfold Ornaments.useFrame. simpl.
    rewrite forEach_all by (rewrite length_replicate; lia).
    reflexivity.
Qed.

Lemma ornaments_construct_then_frame_witness :
  exists data mesh s',
    Ornaments.construct 3 (Fin 2) (fun _ => 1 / 2) =
      (Some (Normal (data, mesh)), s') /\
    length data = 2%nat /\
    mesh = Ornaments.Mesh (replicate 2 Ornaments.identity) false /\
    forall t time scaleBase,
      Ornaments.useFrame (Some mesh) t time scaleBase data =
      Some (Ornaments.Mesh (frame_transforms t time scaleBase data) true).
Proof.
  apply (ornaments_construct_then_frame 2 3 (fun _ => 1 / 2)). lia.
Defined.

(** X11.  A frame over a store as long as the item list replaces the whole
    store by the transforms of the items, whatever the store held: the
    result does not depend on earlier frames, and running the frame again
    changes nothing.  The store never changes length, whatever its length
    was. *)
Theorem ornaments_frame_overwrites
  (t time scaleBase : R) (data : list Ornaments.PositionData)
  (mesh other : Ornaments.InstancedMesh)
  (Hlen : length (Ornaments.instanceMatrix mesh) = length data)
  (Hother : length (Ornaments.instanceMatrix other) = length data) :
  Ornaments.useFrame (Some mesh) t time scaleBase data =
    Some (Ornaments.Mesh (frame_transforms t time scaleBase data) true) /\
  Ornaments.useFrame (Some other) t time scaleBase data =
    Ornaments.useFrame (Some mesh) t time scaleBase data /\
  Ornaments.useFrame
    (Ornaments.useFrame (Some mesh) t time scaleBase data)
    t time scaleBase data =
    Ornaments.useFrame (Some mesh) t time scaleBase data /\
  (forall short : Ornaments.InstancedMesh,
     option_map (fun m => length (Ornaments.instanceMatrix m))
       (Ornaments.useFrame (Some short) t time scaleBase data) =
     Some (length (Ornaments.instanceMatrix short))).
Proof.
  assert (Hone : forall m,
             length (Ornaments.instanceMatrix m) = length data ->
             Ornaments.useFrame (Some m) t time scaleBase data =
             Some (Ornaments.Mesh (frame_transforms t time scaleBase data)
                     true)).
  { intros m Hm. unfold Ornaments.useFrame.
    rewrite forEach_all by (simpl; lia). reflexivity. }
  split; [apply Hone; assumption |]. split; [| split].
  - rewrite !Hone by assumption. reflexivity.
  - rewrite (Hone mesh Hlen). apply Hone. simpl.
    rewrite <- Hlen. unfold Ornaments.useFrame in Hone.
    specialize (Hone mesh Hlen). injection Hone as Hone.
    rewrite <- Hone. apply forEach_length.
  - intros short. simpl. rewrite forEach_length. reflexivity.
Qed.

Lemma ornaments_frame_overwrites_witness :
  Ornaments.useFrame (Some (Ornaments.Mesh [Ornaments.identity] false))
    (1 / 2) 3 1
    [Ornaments.Build_PositionData (Vec3 1 2 3) (Vec3 12 0 0) (Vec3 0 0 0) 1] =
    Some (Ornaments.Mesh
            (frame_transforms (1 / 2) 3 1
               [Ornaments.Build_PositionData (Vec3 1 2 3) (Vec3 12 0 0)
                  (Vec3 0 0 0) 1]) true) /\
  Ornaments.useFrame
    (Some (Ornaments.Mesh
             [Ornaments.Transform (Vec3 9 9 9) (Vec3 9 9 9) (Vec3 9 9 9)]
             true))
    (1 / 2) 3 1
    [Ornaments.Build_PositionData (Vec3 1 2 3) (Vec3 12 0 0) (Vec3 0 0 0) 1] =
    Ornaments.useFrame (Some (Ornaments.Mesh [Ornaments.identity] false))
      (1 / 2) 3 1
      [Ornaments.Build_PositionData (Vec3 1 2 3) (Vec3 12 0 0) (Vec3 0 0 0) 1]
  /\
  Ornaments.useFrame
    (Ornaments.useFrame (Some (Ornaments.Mesh [Ornaments.identity] false))
       (1 / 2) 3 1
       [Ornaments.Build_PositionData (Vec3 1 2 3) (Vec3 12 0 0)
          (Vec3 0 0 0) 1])
    (1 / 2) 3 1
    [Ornaments.Build_PositionData (Vec3 1 2 3) (Vec3 12 0 0) (Vec3 0 0 0) 1] =
    Ornaments.useFrame (Some (Ornaments.Mesh [Ornaments.identity] false))
      (1 / 2) 3 1
      [Ornaments.Build_PositionData (Vec3 1 2 3) (Vec3 12 0 0) (Vec3 0 0 0) 1]
  /\
  (forall short : Ornaments.InstancedMesh,
     option_map (fun m => length (Ornaments.instanceMatrix m))
       (Ornaments.useFrame (Some short) (1 / 2) 3 1
          [Ornaments.Build_PositionData (Vec3 1 2 3) (Vec3 12 0 0)
             (Vec3 0 0 0) 1]) =
     Some (length (Ornaments.instanceMatrix short))).
Proof.
  apply (ornaments_frame_overwrites (1 / 2) 3 1
           [Ornaments.Build_PositionData (Vec3 1 2 3) (Vec3 12 0 0)
              (Vec3 0 0 0) 1]
           (Ornaments.Mesh [Ornaments.identity] false)
           (Ornaments.Mesh
              [Ornaments.Transform (Vec3 9 9 9) (Vec3 9 9 9) (Vec3 9 9 9)]
              true));
    reflexivity.
Defined.

Section OrnamentBounds.

Lemma instance_scale_bounds (t time scaleBase : R) (i : nat)
  (item : Ornaments.PositionData) :
  ornament_sampled i item -> 0 < scaleBase ->
  exists k,
    Ornaments.t_scale
      (Ornaments.instance_transform t time scaleBase item i) = Vec3 k k k /\
    0.3 * scaleBase <= k < scaleBase.
Proof.
  intros Hv Hsb. destruct (sampled_seeds i item Hv) as (_ & _ & _ & Hsc).
  eexists. split; [reflexivity |].
  pose proof (SIN_bound (time + INR i)) as Hw.
  set (w := sin (time + INR i)) in *. set (c := Ornaments.scale item) in *.
  assert (Hcs : 0.5 * scaleBase <= c * scaleBase < scaleBase) by nra.
  nra.
Qed.

Lemma instance_position_box (t time scaleBase : R) (i : nat)
  (item : Ornaments.PositionData) :
  ornament_sampled i item -> 0 <= t <= 1 ->
  let pos := Ornaments.t_position
               (Ornaments.instance_transform t time scaleBase item i) in
  Rabs (vx pos) <= 24.5 /\ Rabs (vy pos) <= 24.5 /\ Rabs (vz pos) <= 24.
Proof.
  intros Hv Ht. cbv zeta. simpl.
  destruct (sampled_coords i item Hv) as ((S1 & S2 & S3) & (T1 & T2 & T3)).
  pose proof (easedT_unit t Ht) as He.
  pose proof (lerp_bound _ _ _ 24 S1 T1 He) as Lx.
  pose proof (lerp_bound _ _ _ 24 S2 T2 He) as Ly.
  pose proof (lerp_bound _ _ _ 24 S3 T3 He) as Lz.
  pose proof (jitter_bound t _ Ht (SIN_bound (time + INR i))) as Jx.
  pose proof (jitter_bound t _ Ht (COS_bound (time * 0.8 + INR i))) as Jy.
  split; [| split].
  - eapply Rle_trans; [apply Rabs_triang |]. lra.
  - eapply Rle_trans; [apply Rabs_triang |]. lra.
  - assumption.
Qed.

Lemma cube_monotone (x y : R) : x <= y -> x ^ 3 <= y ^ 3.
Proof.
  intros Hxy. simpl.
  assert (Hq : 0 <= x * x + x * y + y * y) by nra.
  nra.
Qed.

End OrnamentBounds.

(** X12.  In every frame over a generated ornament field with a positive
    [scaleBase], every instance is scaled uniformly by a factor of at
    least [0.3 * scaleBase] and less than [scaleBase], and its rotation
    about Z is 0. *)
Theorem ornament_frame_scale
  (n fuel : nat) (s : rng) (t time scaleBase : R)
  (Hs : rng_ok s) (Hfuel : (n < fuel)%nat) (Hsb : 0 < scaleBase) :
  exists data s',
    Ornaments.useMemo fuel (Fin (Z.of_nat n)) s = (Some data, s') /\
    length (frame_transforms t time scaleBase data) = n /\
    Forall (fun tr =>
              (exists k, Ornaments.t_scale tr = Vec3 k k k /\
                         0.3 * scaleBase <= k < scaleBase) /\
              vz (Ornaments.t_rotation tr) = 0)
      (frame_transforms t time scaleBase data).
Proof.
  destruct (ornament_field n fuel s Hs Hfuel)
    as (data & s' & Hu & Hlen & Hall).
  exists data, s'. split; [assumption |]. split.
  - unfold frame_transforms. rewrite length_map.
    rewrite <- Hlen. clear. generalize 0%nat.
    induction data as [| x rest IH]; intros k; simpl; [reflexivity |].
    rewrite IH. reflexivity.
  - apply frame_transforms_Forall; [| assumption].
    intros i item Hv. split.
    + apply instance_scale_bounds; assumption.
    + simpl. apply (sampled_seeds i item Hv).
Qed.

Lemma ornament_frame_scale_witness :
  exists data s',
    Ornaments.useMemo 3 (Fin 2) (fun _ => 1 / 2) = (Some data, s') /\
    length (frame_transforms (1 / 2) 7 0.5 data) = 2%nat /\
    Forall (fun tr =>
              (exists k, Ornaments.t_scale tr = Vec3 k k k /\
                         0.3 * 0.5 <= k < 0.5) /\
              vz (Ornaments.t_rotation tr) = 0)
      (frame_transforms (1 / 2) 7 0.5 data).
Proof.
  apply (ornament_frame_scale 2 3 (fun _ => 1 / 2) (1 / 2) 7 0.5).
  - intros k. lra.
  - lia.
  - lra.
Defined.

(** X13.  Every generated ornament carries rotation seeds about X and Y in
    [0, PI), a rotation seed about Z of 0 and a scale seed in [0.5, 1). *)
Theorem ornament_seed_ranges
  (n fuel : nat) (s : rng) (Hs : rng_ok s) (Hfuel : (n < fuel)%nat) :
  exists data s',
    Ornaments.useMemo fuel (Fin (Z.of_nat n)) s = (Some data, s') /\
    length data = n /\
    Forall (fun item =>
              0 <= vx (Ornaments.rotation item) < PI /\
              0 <= vy (Ornaments.rotation item) < PI /\
              vz (Ornaments.rotation item) = 0 /\
              0.5 <= Ornaments.scale item < 1) data.
Proof.
  destruct (ornament_field n fuel s Hs Hfuel)
    as (data & s' & Hu & Hlen & Hall).
  exists data, s'. repeat split; try assumption.
  exact (all_sampled_Forall _ data sampled_seeds Hall).
Qed.

Lemma ornament_seed_ranges_witness :
  exists data s',
    Ornaments.useMemo 3 (Fin 2) (fun _ => 1 / 3) = (Some data, s') /\
    length data = 2%nat /\
    Forall (fun item =>
              0 <= vx (Ornaments.rotation item) < PI /\
              0 <= vy (Ornaments.rotation item) < PI /\
              vz (Ornaments.rotation item) = 0 /\
              0.5 <= Ornaments.scale item < 1) data.
Proof.
  apply (ornament_seed_ranges 2 3 (fun _ => 1 / 3)).
  - intros k. lra.
  - lia.
Defined.

(** X14.  The ease of the ornaments, [1 - (1 - t)^3], never decreases; on
    [0, 1] it stays in [0, 1], is never behind the raw progress, and it
    fixes both ends. *)
Theorem easedT_shape (a b t : R) (Hab : a <= b) (Ht : 0 <= t <= 1) :
  Ornaments.easedT a <= Ornaments.easedT b /\
  t <= Ornaments.easedT t <= 1 /\
  Ornaments.easedT 0 = 0 /\
  Ornaments.easedT 1 = 1.
Proof.
  unfold Ornaments.easedT. split; [| split; [| split]].
  - pose proof (cube_monotone (1 - b) (1 - a) ltac:(lra)). lra.
  - simpl. assert (Hsq : 0 <= (1 - t) * (1 - t) <= 1) by nra. nra.
  - simpl. ring.
  - simpl. ring.
Qed.

Lemma easedT_shape_witness :
  Ornaments.easedT (-1) <= Ornaments.easedT 2 /\
  1 / 2 <= Ornaments.easedT (1 / 2) <= 1 /\
  Ornaments.easedT 0 = 0 /\
  Ornaments.easedT 1 = 1.
Proof.
  apply (easedT_shape (-1) 2 (1 / 2)); lra.
Defined.

(** X15.  In every frame with the progress in [0, 1], every instance of a
    generated ornament field is placed within 24.5 of the origin along X
    and along Y and within 24 along Z. *)
Theorem ornament_frame_in_box
  (n fuel : nat) (s : rng) (t time scaleBase : R)
  (Hs : rng_ok s) (Hfuel : (n < fuel)%nat) (Ht : 0 <= t <= 1) :
  exists data s',
    Ornaments.useMemo fuel (Fin (Z.of_nat n)) s = (Some data, s') /\
    Forall (fun tr =>
              Rabs (vx (Ornaments.t_position tr)) <= 24.5 /\
              Rabs (vy (Ornaments.t_position tr)) <= 24.5 /\
              Rabs (vz (Ornaments.t_position tr)) <= 24)
      (frame_transforms t time scaleBase data).
Proof.
  destruct (ornament_field n fuel s Hs Hfuel)
    as (data & s' & Hu & Hlen & Hall).
  exists data, s'. split; [assumption |].
  apply frame_transforms_Forall; [| assumption].
  intros i item Hv. apply (instance_position_box t time scaleBase i item Hv Ht).
Qed.

Lemma ornament_frame_in_box_witness :
  exists data s',
    Ornaments.useMemo 3 (Fin 2) (fun _ => 1 / 2) = (Some data, s') /\
    Forall (fun tr =>
              Rabs (vx (Ornaments.t_position tr)) <= 24.5 /\
              Rabs (vy (Ornaments.t_position tr)) <= 24.5 /\
              Rabs (vz (Ornaments.t_position tr)) <= 24)
      (frame_transforms (1 / 4) 2 1 data).
Proof.
  apply (ornament_frame_in_box 2 3 (fun _ => 1 / 2) (1 / 4) 2 1).
  - intros k. lra.
  - lia.
  - lra.
Defined.

(** ** More on the foliage shaders *)

Section Shaders.

Lemma clamp_unit (u : R) :
  0 <= GLSL.clamp u 0 1 <= 1 /\
  (u <= 0 -> GLSL.clamp u 0 1 = 0) /\
  (1 <= u -> GLSL.clamp u 0 1 = 1).
Proof.
  unfold GLSL.clamp, Rmin, Rmax.
  repeat destruct Rle_dec; repeat split; intros; lra.
Qed.

Lemma clamp_monotone (u v : R) :
  u <= v -> GLSL.clamp u 0 1 <= GLSL.clamp v 0 1.
Proof.
  unfold GLSL.clamp, Rmin, Rmax. intros Huv.
  repeat destruct Rle_dec; lra.
Qed.

Lemma hermite_unit (c : R) : 0 <= c <= 1 -> 0 <= c * c * (3 - 2 * c) <= 1.
Proof.
  intros Hc. assert (Hsq : 0 <= c * c <= 1) by nra.
  split; [nra |].
  assert (H1 : 0 <= (1 - c) * (1 - c) * (1 + 2 * c)).
  { apply Rmult_le_pos; nra. }
  nra.
Qed.

Lemma hermite_monotone (c d : R) :
  0 <= c -> c <= d -> d <= 1 ->
  c * c * (3 - 2 * c) <= d * d * (3 - 2 * d).
Proof.
  intros Hc Hcd Hd.
  assert (Hf : 0 <= 3 * (c + d) - 2 * (c * c + c * d + d * d)).
  { assert (Hc2 : c * c <= c) by nra. assert (Hd2 : d * d <= d) by nra.
    assert (Hcd2 : c * d <= c) by nra. nra. }
  assert (Heq : d * d * (3 - 2 * d) - c * c * (3 - 2 * c) =
                (d - c) * (3 * (c + d) - 2 * (c * c + c * d + d * d)))
    by ring.
  nra.
Qed.

Lemma smoothstep_arg (x : R) : (x - 0) / (1 - 0) = x.
Proof. field. Qed.

Lemma Math_pow_range (u y : R) :
  0 <= u <= 1 -> 0 < y -> 0 <= Math_pow u y <= 1.
Proof.
  intros [H0 H1] Hy. unfold Math_pow.
  destruct (Rlt_dec 0 u) as [Hpos | _]; [| lra].
  unfold Rpower.
  assert (Hln : ln u <= 0).
  { destruct H1 as [H1 | ->]; [| rewrite ln_1; lra].
    left. rewrite <- ln_1. apply ln_increasing; assumption. }
  pose proof (exp_pos (y * ln u)) as Hp.
  assert (Hexp : exp (y * ln u) <= 1).
  { destruct (Req_dec (y * ln u) 0) as [-> | Hne]; [rewrite exp_0; lra |].
    left. rewrite <- exp_0. apply exp_increasing. nra. }
  lra.
Qed.

Lemma Math_pow_one (y : R) : Math_pow 1 y = 1.
Proof.
  unfold Math_pow. destruct (Rlt_dec 0 1) as [_ | Hn]; [| lra].
  unfold Rpower. rewrite ln_1, Rmult_0_r, exp_0. reflexivity.
Qed.

Lemma norm_xy_nonneg (p : R * R) : 0 <= norm_xy p.
Proof. unfold norm_xy. apply sqrt_pos. Qed.

End Shaders.

(** X16.  The ease of the foliage shader is clamped: for every value of
    the progress uniform it lies in [0, 1], it is 0 for a progress of 0 or
    less and 1 for a progress of 1 or more, and it never decreases.  A
    progress that left [0, 1] would still place the particle on the
    segment from its scatter to its tree position. *)
Theorem smoothstep_clamped (x y : R) (Hxy : x <= y) :
  0 <= GLSL.smoothstep 0 1 x <= 1 /\
  GLSL.smoothstep 0 1 x <= GLSL.smoothstep 0 1 y /\
  GLSL.smoothstep 0 1 (Rmin x 0) = 0 /\
  GLSL.smoothstep 0 1 (Rmax x 1) = 1.
Proof.
  unfold GLSL.smoothstep. cbv zeta. rewrite !smoothstep_arg.
  destruct (clamp_unit x) as (Hx & _ & _).
  destruct (clamp_unit y) as (Hy & _ & _).
  pose proof (clamp_monotone x y Hxy) as Hm.
  split; [apply hermite_unit; assumption |].
  split; [apply hermite_monotone; lra |].
  split.
  - destruct (clamp_unit (Rmin x 0)) as (_ & H0 & _).
    rewrite H0 by apply Rmin_r. ring.
  - destruct (clamp_unit (Rmax x 1)) as (_ & _ & H1).
    rewrite H1 by apply Rmax_r. ring.
Qed.

Lemma smoothstep_clamped_witness :
  0 <= GLSL.smoothstep 0 1 (-3) <= 1 /\
  GLSL.smoothstep 0 1 (-3) <= GLSL.smoothstep 0 1 (1 / 2) /\
  GLSL.smoothstep 0 1 (Rmin (-3) 0) = 0 /\
  GLSL.smoothstep 0 1 (Rmax (-3) 1) = 1.
Proof.
  apply (smoothstep_clamped (-3) (1 / 2)). lra.
Defined.

(** X17.  While the progress uniform is at most 0.8 the vertex shader
    ignores the normal, leaves Z at the interpolated value and moves X and
    Y by at most 0.2 from it: the breathing and the wind never act
    together.  From 0.2 on (the progress raised to 0.2 when it is below)
    there is no wind either, and the position is the interpolation alone,
    the same at every time. *)
Theorem shader_without_breathing
  (time uMorph : R) (v : Foliage.vertex) (nrm : vec3)
  (Hm : uMorph <= 0.8) :
  let base := GLSL.mix3 (Foliage.aScatterPos v) (Foliage.aTreePos v)
                (GLSL.smoothstep 0 1 uMorph) in
  let out := Foliage.vertexShader time uMorph v in
  out = Foliage.vertexShader time uMorph
          (Foliage.Vertex (Foliage.aScatterPos v) (Foliage.aTreePos v)
             (Foliage.aRandom v) nrm) /\
  vz out = vz base /\
  Rabs (vx out - vx base) <= 0.2 /\
  Rabs (vy out - vy base) <= 0.2 /\
  Foliage.vertexShader time (Rmax uMorph 0.2) v =
    GLSL.mix3 (Foliage.aScatterPos v) (Foliage.aTreePos v)
      (GLSL.smoothstep 0 1 (Rmax uMorph 0.2)).
Proof.
  cbv zeta. split; [| split; [| split; [| split]]].
  5: { unfold Foliage.vertexShader.
       pose proof (Rmax_r uMorph 0.2) as Hlo.
       assert (Hhi : Rmax uMorph 0.2 <= 0.8) by (apply Rmax_lub; lra).
       destruct (Rlt_dec 0.8 (Rmax uMorph 0.2)) as [Hgt | _]; [lra |].
       destruct (Rlt_dec (Rmax uMorph 0.2) 0.2) as [Hlt | _];
         [lra | reflexivity]. }
  all: unfold Foliage.vertexShader; simpl;
    destruct (Rlt_dec 0.8 uMorph) as [Hgt | _]; [lra |];
    pose proof (COS_bound (time * 0.3 + Foliage.aRandom v * 10)) as Hc;
    pose proof (SIN_bound (time * 0.5 + Foliage.aRandom v * 10)) as Hs;
    destruct (Rlt_dec uMorph 0.2) as [Hlt | Hge]; simpl;
    try reflexivity; apply Rabs_le; lra.
Qed.

Lemma shader_without_breathing_witness :
  let v := Foliage.Vertex (Vec3 20 0 0) (Vec3 1 2 3) (1 / 2) (Vec3 0 1 0) in
  let base := GLSL.mix3 (Vec3 20 0 0) (Vec3 1 2 3)
                (GLSL.smoothstep 0 1 (1 / 10)) in
  let out := Foliage.vertexShader 5 (1 / 10) v in
  out = Foliage.vertexShader 5 (1 / 10)
          (Foliage.Vertex (Vec3 20 0 0) (Vec3 1 2 3) (1 / 2) (Vec3 7 7 7)) /\
  vz out = vz base /\
  Rabs (vx out - vx base) <= 0.2 /\
  Rabs (vy out - vy base) <= 0.2 /\
  Foliage.vertexShader 5 (Rmax (1 / 10) 0.2) v =
    GLSL.mix3 (Vec3 20 0 0) (Vec3 1 2 3)
      (GLSL.smoothstep 0 1 (Rmax (1 / 10) 0.2)).
Proof.
  apply (shader_without_breathing 5 (1 / 10)
           (Foliage.Vertex (Vec3 20 0 0) (Vec3 1 2 3) (1 / 2) (Vec3 0 1 0))
           (Vec3 7 7 7)).
  lra.
Defined.

(** X18.  A particle whose random attribute is in [0, 1), seen in front of
    the camera on a device of positive pixel ratio, is drawn with an alpha
    between 0.2 and 1 and with a positive point size below
    [600 / depth]; the pixel ratio used is never above 2. *)
Theorem point_size_and_alpha
  (time devicePixelRatio mvz : R) (v : Foliage.vertex)
  (Hr : 0 <= Foliage.aRandom v < 1) (Hd : 0 < devicePixelRatio)
  (Hz : mvz < 0) :
  let pr := FoliageMaterial.uPixelRatio devicePixelRatio in
  0.2 <= FoliageMaterial.vAlpha time v <= 1 /\
  0 < pr <= 2 /\
  0 < FoliageMaterial.gl_PointSize v pr mvz < 600 / - mvz.
Proof.
  cbv zeta. unfold FoliageMaterial.vAlpha, FoliageMaterial.gl_PointSize,
    FoliageMaterial.uPixelRatio.
  pose proof (SIN_bound (time * 3.0 + Foliage.aRandom v * 20.0)) as Hs.
  assert (Hpr : 0 < Rmin devicePixelRatio 2 <= 2).
  { split; [apply Rmin_glb_lt; lra | apply Rmin_r]. }
  set (pr := Rmin devicePixelRatio 2) in *.
  assert (Hw : 0 < 50.0 / - mvz) by (apply Rdiv_lt_0_compat; lra).
  replace (600 / - mvz) with (12 * (50.0 / - mvz)) by (unfold Rdiv; lra).
  set (w := 50.0 / - mvz) in *.
  split; [lra |]. split; [assumption |].
  assert (Ha : 0 < (4.0 * Foliage.aRandom v + 2.0) * pr < 12) by nra.
  split; nra.
Qed.

Lemma point_size_and_alpha_witness :
  let v := Foliage.Vertex (Vec3 20 0 0) (Vec3 1 2 3) (1 / 2) (Vec3 0 1 0) in
  let pr := FoliageMaterial.uPixelRatio 3 in
  0.2 <= FoliageMaterial.vAlpha 1 v <= 1 /\
  0 < pr <= 2 /\
  0 < FoliageMaterial.gl_PointSize v pr (-28) < 600 / - (-28).
Proof.
  apply (point_size_and_alpha 1 3 (-28)
           (Foliage.Vertex (Vec3 20 0 0) (Vec3 1 2 3) (1 / 2) (Vec3 0 1 0)));
    simpl; lra.
Defined.

(** X19.  The fragment shader discards exactly the fragments farther than
    0.5 from the centre of the point.  A fragment it keeps gets an alpha
    between 0 and the alpha of the vertex, and a colour that mixes the low
    colour with at most one half of the high colour; the centre gets the
    full alpha and the half-and-half colour. *)
Theorem fragment_disc
  (high low : vec3) (alpha : R) (pc : R * R) (Ha : 0 <= alpha) :
  match FoliageMaterial.fragmentShader high low alpha pc with
  | None => 0.5 < norm_xy (fst pc - 0.5, snd pc - 0.5)
  | Some (color, a) =>
      norm_xy (fst pc - 0.5, snd pc - 0.5) <= 0.5 /\
      0 <= a <= alpha /\
      exists w, 0 <= w <= 0.5 /\ color = GLSL.mix3 low high w
  end /\
  FoliageMaterial.fragmentShader high low alpha (0.5, 0.5) =
    Some (GLSL.mix3 low high 0.5, alpha).
Proof.
  split.
  - pose proof (norm_xy_nonneg (fst pc - 0.5, snd pc - 0.5)) as Hd.
    unfold FoliageMaterial.fragmentShader, norm_xy in *. cbv zeta.
    simpl fst in *. simpl snd in *.
    set (dist := sqrt ((fst pc - 0.5) * (fst pc - 0.5)
                       + (snd pc - 0.5) * (snd pc - 0.5))) in *.
    destruct (Rlt_dec 0.5 dist) as [Hout | Hin]; [assumption |].
    assert (Hg : 0 <= Math_pow (1.0 - dist * 2.0) 1.5 <= 1)
      by (apply Math_pow_range; lra).
    set (glow := Math_pow (1.0 - dist * 2.0) 1.5) in *.
    split; [lra |]. split; [nra |].
    exists (glow * 0.5). split; [lra | reflexivity].
  - unfold FoliageMaterial.fragmentShader. cbv zeta. simpl fst. simpl snd.
    replace ((0.5 - 0.5) * (0.5 - 0.5) + (0.5 - 0.5) * (0.5 - 0.5))
      with 0 by lra.
    rewrite sqrt_0.
    destruct (Rlt_dec 0.5 0) as [Hlt | _]; [lra |].
    replace (1.0 - 0 * 2.0) with 1 by lra.
    rewrite Math_pow_one.
    replace (1 * 0.5) with 0.5 by lra. rewrite Rmult_1_r. reflexivity.
Qed.

Lemma fragment_disc_witness :
  match FoliageMaterial.fragmentShader (Vec3 1 0.84 0) (Vec3 0 0.26 0.15)
          0.8 (0.5, 0.75) with
  | None => 0.5 < norm_xy (fst (0.5, 0.75) - 0.5, snd (0.5, 0.75) - 0.5)
  | Some (color, a) =>
      norm_xy (fst (0.5, 0.75) - 0.5, snd (0.5, 0.75) - 0.5) <= 0.5 /\
      0 <= a <= 0.8 /\
      exists w, 0 <= w <= 0.5 /\
                color = GLSL.mix3 (Vec3 0 0.26 0.15) (Vec3 1 0.84 0) w
  end /\
  FoliageMaterial.fragmentShader (Vec3 1 0.84 0) (Vec3 0 0.26 0.15) 0.8
    (0.5, 0.5) =
    Some (GLSL.mix3 (Vec3 0 0.26 0.15) (Vec3 1 0.84 0) 0.5, 0.8).
Proof.
  apply (fragment_disc (Vec3 1 0.84 0) (Vec3 0 0.26 0.15) 0.8 (0.5, 0.75)).
  lra.
Defined.

(** ** The two fields together *)

Section Together.

Lemma foliage_random_unit (v : Foliage.vertex) :
  foliage_sampled v -> 0 <= Foliage.aRandom v < 1.
Proof.
  intros (u1 & u2 & u3 & u4 & u5 & u6 & u7 & Hu & _ & _ & ->).
  apply Hu.
Qed.

(** The cone of the ornaments lies inside the cone of the foliage. *)
Lemma ornament_inside_foliage (i : nat) (item : Ornaments.PositionData) :
  ornament_sampled i item ->
  let p := Ornaments.tree item in
  - Foliage.height / 2 < vy p < Foliage.height / 2 /\
  radial p < Foliage.radiusBase * (1 - yNorm_of Foliage.height (vy p)).
Proof.
  intros Hv.
  destruct (ornament_tree_on_cone i item Hv) as (HyN & Hy & Hr & _).
  cbv zeta. rewrite Hr.
  unfold Ornaments.height, Ornaments.radiusBase, Foliage.height,
    Foliage.radiusBase, yNorm_of in *.
  set (y := vy (Ornaments.tree item)) in *.
  split; [lra |].
  replace ((y + 13 / 2) / 13) with (y / 13 + 1 / 2) in * by field.
  replace ((y + 14 / 2) / 14) with (y / 14 + 1 / 2) by field.
  lra.
Qed.

Lemma instance_near_tree (t time scaleBase eps : R) (i : nat)
  (item : Ornaments.PositionData) :
  ornament_sampled i item -> 0 <= t <= 1 -> 49 * (1 - t) <= eps ->
  dist_inf
    (Ornaments.t_position
       (Ornaments.instance_transform t time scaleBase item i))
    (Ornaments.tree item) <= eps.
Proof.
  intros Hv Ht He.
  destruct (sampled_coords i item Hv) as ((S1 & S2 & S3) & (T1 & T2 & T3)).
  apply Rabs_le_between in S1, S2, S3, T1, T2, T3.
  pose proof (SIN_bound (time + INR i)) as Hs.
  pose proof (COS_bound (time * 0.8 + INR i)) as Hc.
  unfold dist_inf, Ornaments.instance_transform, Ornaments.easedT,
    MathUtils.lerp. simpl.
  set (d := 1 - t) in *.
  assert (Hd : 0 <= d <= 1) by (unfold d; lra).
  assert (Hd2 : 0 <= d * d <= d) by nra.
  assert (Hd3 : 0 <= d * (d * (d * 1)) <= d) by nra.
  set (c := d * (d * (d * 1))) in *.
  set (sx := vx (Ornaments.scatter item)) in *.
  set (sy := vy (Ornaments.scatter item)) in *.
  set (sz := vz (Ornaments.scatter item)) in *.
  set (tx := vx (Ornaments.tree item)) in *.
  set (ty := vy (Ornaments.tree item)) in *.
  set (tz := vz (Ornaments.tree item)) in *.
  repeat apply Rmax_lub; apply Rabs_le; split; nra.
Qed.

End Together.

(** X20.  Every particle of a generated foliage field carries a random
    attribute in [0, 1). *)
Theorem foliage_random_attribute
  (n fuel : nat) (s : rng) (normals : nat -> vec3)
  (Hs : rng_ok s) (Hfuel : (n < fuel)%nat) :
  exists b s',
    Foliage.useMemo fuel (Fin (Z.of_nat n)) s = (Some (Normal b), s') /\
    Foliage.vertex_count b = n /\
    Forall (fun v => 0 <= Foliage.aRandom v < 1) (Foliage.vertices normals b).
Proof.
  destruct (foliage_field n fuel s normals Hs Hfuel)
    as (b & s' & Hu & Hvc & Hall).
  exists b, s'. repeat split; try assumption.
  exact (Forall_weaken _ _ _ foliage_random_unit Hall).
Qed.

Lemma foliage_random_attribute_witness :
  exists b s',
    Foliage.useMemo 3 (Fin 2) (fun _ => 1 / 2) = (Some (Normal b), s') /\
    Foliage.vertex_count b = 2%nat /\
    Forall (fun v => 0 <= Foliage.aRandom v < 1)
      (Foliage.vertices (fun _ => Vec3 0 0 0) b).
Proof.
  apply (foliage_random_attribute 2 3 (fun _ => 1 / 2) (fun _ => Vec3 0 0 0)).
  - intros k. lra.
  - lia.
Defined.

(** X21.  Every tree position of a generated ornament lies strictly inside
    the cone that bounds the foliage: its height is strictly within the
    height range of the foliage and its horizontal radius is strictly less
    than the radius of the foliage cone at that height. *)
Theorem ornaments_inside_foliage_cone
  (n fuel : nat) (s : rng) (Hs : rng_ok s) (Hfuel : (n < fuel)%nat) :
  exists data s',
    Ornaments.useMemo fuel (Fin (Z.of_nat n)) s = (Some data, s') /\
    length data = n /\
    Forall (fun item =>
              let p := Ornaments.tree item in
              - Foliage.height / 2 < vy p < Foliage.height / 2 /\
              radial p <
                Foliage.radiusBase * (1 - yNorm_of Foliage.height (vy p)))
      data.
Proof.
  destruct (ornament_field n fuel s Hs Hfuel)
    as (data & s' & Hu & Hlen & Hall).
  exists data, s'. repeat split; try assumption.
  exact (all_sampled_Forall _ data ornament_inside_foliage Hall).
Qed.

Lemma ornaments_inside_foliage_cone_witness :
  exists data s',
    Ornaments.useMemo 3 (Fin 2) (fun _ => 1 / 2) = (Some data, s') /\
    length data = 2%nat /\
    Forall (fun item =>
              let p := Ornaments.tree item in
              - Foliage.height / 2 < vy p < Foliage.height / 2 /\
              radial p <
                Foliage.radiusBase * (1 - yNorm_of Foliage.height (vy p)))
      data.
Proof.
  apply (ornaments_inside_foliage_cone 2 3 (fun _ => 1 / 2)).
  - intros k. lra.
  - lia.
Defined.

(** X22.  From progress 0, ticks in TREE_SHAPE mode with a fixed positive
    delta bring every instance of a generated ornament field, at every
    time, within any [eps > 0] (in each coordinate) of its tree position
    after finitely many ticks, and keep it there. *)
Theorem ornaments_converge_to_tree
  (delta eps : R) (n fuel : nat) (s : rng) (scaleBase : R)
  (Hd : 0 < delta) (He : 0 < eps) (Hs : rng_ok s) (Hfuel : (n < fuel)%nat) :
  exists N data s',
    Ornaments.useMemo fuel (Fin (Z.of_nat n)) s = (Some data, s') /\
    length data = n /\
    forall k time,
      Forall (fun p =>
                dist_inf
                  (Ornaments.t_position
                     (Ornaments.instance_transform
                        (morph_ticks (N + k) 0 delta) time scaleBase
                        (snd p) (fst p)))
                  (Ornaments.tree (snd p)) <= eps)
        (indexed_from 0 data).
Proof.
  assert (Hy : 0 < Rmin 1 (eps / 49)) by (apply Rmin_glb_lt; lra).
  destruct (morph_ticks_eventually delta _ Hd Hy) as [N HN].
  destruct (ornament_field n fuel s Hs Hfuel)
    as (data & s' & Hu & Hlen & Hall).
  exists N, data, s'. split; [assumption |]. split; [assumption |].
  intros k time. specialize (HN k).
  pose proof (Rmin_l 1 (eps / 49)) as Hl.
  pose proof (Rmin_r 1 (eps / 49)) as Hr.
  apply (Forall_weaken (fun p => ornament_sampled (fst p) (snd p))).
  - intros [i item] Hv. cbn [fst snd] in *.
    apply instance_near_tree; [assumption | lra | lra].
  - apply indexed_from_sampled. intros j item Hj. exact (Hall j item Hj).
Qed.

Lemma ornaments_converge_to_tree_witness :
  exists N data s',
    Ornaments.useMemo 3 (Fin 2) (fun _ => 1 / 2) = (Some data, s') /\
    length data = 2%nat /\
    forall k time,
      Forall (fun p =>
                dist_inf
                  (Ornaments.t_position
                     (Ornaments.instance_transform
                        (morph_ticks (N + k) 0 (1 / 60)) time 0.5
                        (snd p) (fst p)))
                  (Ornaments.tree (snd p)) <= 1 / 100)
        (indexed_from 0 data).
Proof.
  apply (ornaments_converge_to_tree (1 / 60) (1 / 100) 2 3 (fun _ => 1 / 2)
           0.5).
  - lra.
  - lra.
  - intros k. lra.
  - lia.
Defined.
